(** * Landwatch NC/NO handler: deadman timer and fleet downlink dispatch

    A shallow embedding of [Landwatch/Landwatch_003/NCNOHandler.py]:
    the MQTT ingestion callback [on_message], the deadman-timer routine
    [process_status], the fleet read [read_controllers] and the
    thread-pool fan-out [send_downlink_parallel].  Module-level globals
    of the script become fields of a [World] record that is threaded
    through a small state-and-exception monad; the collaborators the
    script talks to (the CSV file, the gRPC channel, the order in which
    futures complete) are inputs of the model. *)

From Stdlib Require Import ZArith String Ascii List Permutation Lia.
From Stdlib.Strings Require Import Byte.
From stdpp Require Import base tactics option list.

Set Warnings "-register-all".
Local Open Scope string_scope.

(** ** Python values the script manipulates *)

Module Py.

(** Exceptions reaching the script.  All of them derive from
    [Exception], so a clause [except Exception] catches every one. *)
Inductive exn : Type :=
| IndexError
| AttributeError
| TypeError
| ValueError
| OSError
| KeyError
| RpcError (detail : string)
| TimeoutError
| OtherError (detail : string).

Inductive result (A : Type) : Type :=
| Ok (a : A)
| Raise (e : exn).
Arguments Ok {A} a.
Arguments Raise {A} e.

(** Strings are taken to be ASCII.  [str.isspace] on that range:
    TAB..CR, FS..US and SPACE. *)
Definition isspace (c : ascii) : bool :=
  let n := nat_of_ascii c in
  ((9 <=? n)%nat && (n <=? 13)%nat) || ((28 <=? n)%nat && (n <=? 32)%nat).

Fixpoint lstrip (s : string) : string :=
  match s with
  | String c s' => if isspace c then lstrip s' else s
  | EmptyString => EmptyString
  end.

Fixpoint string_rev (s acc : string) : string :=
  match s with
  | EmptyString => acc
  | String c s' => string_rev s' (String c acc)
  end.

(** [s.strip()] *)
Definition strip (s : string) : string :=
  string_rev (lstrip (string_rev (lstrip s) "")) "".

(** [s.split(sep)] for a one-character separator. *)
Fixpoint split (sep : ascii) (s : string) : list string :=
  match s with
  | EmptyString => [EmptyString]
  | String c s' =>
      if Ascii.eqb c sep then EmptyString :: split sep s'
      else match split sep s' with
           | w :: ws => String c w :: ws
           | [] => [String c EmptyString]
           end
  end.

(** [l[i]] for a non-negative index. *)
Definition index {A} (l : list A) (i : nat) : result A :=
  match l !! i with
  | Some x => Ok x
  | None => Raise IndexError
  end.

Definition hexval (c : ascii) : option nat :=
  let n := nat_of_ascii c in
  if (48 <=? n)%nat && (n <=? 57)%nat then Some (n - 48)%nat
  else if (65 <=? n)%nat && (n <=? 70)%nat then Some (n - 55)%nat
  else if (97 <=? n)%nat && (n <=? 102)%nat then Some (n - 87)%nat
  else None.

(** The whitespace [bytes.fromhex] skips between byte pairs. *)
Definition is_hex_blank (c : ascii) : bool :=
  let n := nat_of_ascii c in
  ((9 <=? n)%nat && (n <=? 13)%nat) || (n =? 32)%nat.

Definition mkbyte (hi lo : nat) : byte :=
  byte_of_ascii (ascii_of_nat (16 * hi + lo)).

(** [bytes.fromhex(s)]; [None] stands for the [ValueError] it raises
    on an odd digit or a character that is no hexadecimal digit. *)
Fixpoint fromhex (s : string) : option (list byte) :=
  match s with
  | EmptyString => Some []
  | String c s' =>
      if is_hex_blank c then fromhex s'
      else match hexval c, s' with
           | Some hi, String d s'' =>
               match hexval d with
               | Some lo => cons (mkbyte hi lo) <$> fromhex s''
               | None => None
               end
           | _, _ => None
           end
  end.

(** Decoded JSON documents, as [json.loads] returns them: objects are
    dicts (items in insertion order), arrays are lists. *)
Inductive json : Type :=
| JNull
| JBool (b : bool)
| JNum (n : Z)
| JStr (s : string)
| JArr (items : list json)
| JObj (items : list (string * json)).

Fixpoint assoc (k : string) (items : list (string * json)) : option json :=
  match items with
  | [] => None
  | (k', v) :: rest => if String.eqb k k' then Some v else assoc k rest
  end.

(** [d.get(k, default)]; only dicts have a [get] method. *)
Definition get (d : json) (k : string) (dflt : json) : result json :=
  match d with
  | JObj items => Ok (match assoc k items with Some v => v | None => dflt end)
  | _ => Raise AttributeError
  end.

(** [len(x)] *)
Definition len (x : json) : result nat :=
  match x with
  | JObj items => Ok (length items)
  | JArr items => Ok (length items)
  | JStr s => Ok (String.length s)
  | _ => Raise TypeError
  end.

(** [x == s] for a string literal [s]. *)
Definition eq_str (x : json) (s : string) : bool :=
  match x with
  | JStr t => String.eqb t s
  | _ => false
  end.

End Py.

Example strip_ex : Py.strip "  controller " = "controller".
Proof. reflexivity. Qed.

Example split_ex :
  Py.split "/" "application/1/device/a8/event/up"
  = ["application"; "1"; "device"; "a8"; "event"; "up"].
Proof. reflexivity. Qed.

Example fromhex_ex : Py.fromhex "050011EA60" = Some [x05; x00; x11; xea; x60].
Proof. reflexivity. Qed.

(** ** Configuration constants of the script *)

Definition MASTER_EUI : string := "a84041679d5cfcf2".
Definition CSV_FILE : string := "list.csv".
Definition TIMEOUT_SECONDS : Z := 30.
Definition FPORT : Z := 1.
Definition CONFIRMED : bool := false.
Definition PAYLOAD_LOW_HEX : string := "050011EA60".
Definition PAYLOAD_HIGH_HEX : string := "030000".
Definition RPC_TIMEOUT : Z := 5.
(** The literal in [MAX_WORKERS = min(controllers_list_num, 10)]. *)
Definition WORKER_CAP : nat := 10.

(** ** Objects the script owns *)

(** A [threading.Timer]: created, then started (its thread waits for
    the interval), then either cancelled or fired.  [callback] is the
    argument its function passes to [process_status]. *)
Inductive timer_phase : Type := Created | Waiting | Cancelled | Fired.

Record Timer : Type := mkTimer {
  interval : Z;
  callback : string;
  daemon : bool;
  phase : timer_phase
}.

Definition Timer_cancel (t : Timer) : Timer :=
  match phase t with
  | Created | Waiting => mkTimer (interval t) (callback t) (daemon t) Cancelled
  | Cancelled | Fired => t
  end.

Definition Timer_start (t : Timer) : Timer :=
  match phase t with
  | Created => mkTimer (interval t) (callback t) (daemon t) Waiting
  | _ => t
  end.

Definition Timer_set_daemon (t : Timer) : Timer :=
  mkTimer (interval t) (callback t) true (phase t).

Definition Timer_fire (t : Timer) : Timer :=
  mkTimer (interval t) (callback t) (daemon t) Fired.

Definition is_waiting (t : Timer) : bool :=
  match phase t with Waiting => true | _ => false end.

(** The [EnqueueDeviceQueueItemRequest] built by [_enqueue]. *)
Record request : Type := mkRequest {
  dev_eui : string;
  f_port : Z;
  confirmed : bool;
  data : list byte
}.

Inductive level : Type := INFO | ERROR.

(** The calls the script makes on [logger], by call site.
    [MessageError e] is the call [logger.error('Error processing
    message:', e)] of [on_message]; the model records that the call is
    made, not how the handler formats it. *)
Inductive log_record : Type :=
| NoControllers
| Processing (status : string) (controllers : nat) (payload : string)
| Enqueued (eui id : string)
| GrpcError (eui detail : string)
| TimedOut (eui : string)
| Unexpected (eui : string) (e : Py.exn)
| MessageError (e : Py.exn).

Definition level_of (r : log_record) : level :=
  match r with
  | Processing _ _ _ | Enqueued _ _ => INFO
  | _ => ERROR
  end.

(** The files the process can open: the rows [csv.reader] yields for a
    path, or [None] when opening or reading the file raises. *)
Definition FileSystem : Type := string -> option (list (list string)).

(** The globals of the module together with what it has done so far.
    [_last_status] is never written (its assignments are commented out
    in the source) and is left out. *)
Record World : Type := mkWorld {
  fs : FileSystem;
  MAX_WORKERS : nat;                 (* size of [_executor] *)
  submitted : list request;          (* tasks handed to [_executor] *)
  timers : list Timer;               (* every Timer object, by identity *)
  _di_timeout_timer : option nat;
  log : list log_record
}.

Definition set_fs (f : FileSystem) (w : World) : World :=
  mkWorld f (MAX_WORKERS w) (submitted w) (timers w) (_di_timeout_timer w) (log w).
Definition set_submitted (s : list request) (w : World) : World :=
  mkWorld (fs w) (MAX_WORKERS w) s (timers w) (_di_timeout_timer w) (log w).
Definition set_timers (ts : list Timer) (w : World) : World :=
  mkWorld (fs w) (MAX_WORKERS w) (submitted w) ts (_di_timeout_timer w) (log w).
Definition set_handle (h : option nat) (w : World) : World :=
  mkWorld (fs w) (MAX_WORKERS w) (submitted w) (timers w) h (log w).
Definition set_log (l : list log_record) (w : World) : World :=
  mkWorld (fs w) (MAX_WORKERS w) (submitted w) (timers w) (_di_timeout_timer w) l.

(** ** State and exceptions *)

Definition M (A : Type) : Type := World -> World * Py.result A.

Definition ret {A} (a : A) : M A := fun w => (w, Py.Ok a).
Definition raise {A} (e : Py.exn) : M A := fun w => (w, Py.Raise e).
Definition lift {A} (r : Py.result A) : M A := fun w => (w, r).
Definition bind {A B} (m : M A) (k : A -> M B) : M B :=
  fun w => match m w with
           | (w', Py.Ok a) => k a w'
           | (w', Py.Raise e) => (w', Py.Raise e)
           end.
Definition gets {A} (f : World -> A) : M A := fun w => (w, Py.Ok (f w)).
Definition modify (f : World -> World) : M unit := fun w => (f w, Py.Ok tt).
(** [try: m except Exception as e: h e] *)
Definition try_except {A} (m : M A) (h : Py.exn -> M A) : M A :=
  fun w => match m w with
           | (w', Py.Raise e) => h e w'
           | r => r
           end.

Notation "'let*' x := m 'in' k" := (bind m (fun x => k))
  (at level 10, x name, m at level 100, k at level 200).
Notation "m >> k" := (bind m (fun _ => k))
  (at level 62, right associativity).

(** [for x in l: body x] *)
Fixpoint for_each {A} (l : list A) (body : A -> M unit) : M unit :=
  match l with
  | [] => ret tt
  | x :: rest => body x >> for_each rest body
  end.

Definition logger (r : log_record) : M unit :=
  modify (fun w => set_log (log w ++ [r]) w).

(** ** The functions of the script *)

(** [read_controllers(csv_path)] on the rows of the file. *)
Definition controllers_of (rows : list (list string)) : list string :=
  fold_left
    (fun controllers row =>
       if (2 <=? length row)%nat
          && String.eqb (Py.strip (nth 1 row "")) "controller"
       then (controllers ++ [Py.strip (nth 0 row "")])%list
       else controllers)
    rows [].

Definition read_controllers (files : FileSystem) (csv_path : string)
  : Py.result (list string) :=
  match files csv_path with
  | Some rows => Py.Ok (controllers_of rows)
  | None => Py.Raise Py.OSError
  end.

(** [ThreadPoolExecutor(max_workers=n)]: the constructor raises
    [ValueError] when [n <= 0]. *)
Definition ThreadPoolExecutor (max_workers : nat) : Py.result nat :=
  if (max_workers <=? 0)%nat then Py.Raise Py.ValueError else Py.Ok max_workers.

(** The module-level statements, run once when the script is loaded. *)
Definition module_load (files : FileSystem) : Py.result World :=
  match read_controllers files CSV_FILE with
  | Py.Raise e => Py.Raise e
  | Py.Ok controllers_list =>
      let controllers_list_num := length controllers_list in
      match ThreadPoolExecutor (Nat.min controllers_list_num WORKER_CAP) with
      | Py.Raise e => Py.Raise e
      | Py.Ok workers => Py.Ok (mkWorld files workers [] [] None [])
      end
  end.

Definition _enqueue (eui : string) (payload : list byte) : request :=
  mkRequest eui FPORT CONFIRMED payload.

(** A [Future] returned by [_executor.submit]: the number of the task
    in the executor and the request the task sends. *)
Record Future : Type := mkFuture { task_id : nat; task : request }.

(** An MQTT message as [on_message] sees it: its topic and what
    [json.loads(msg.payload.decode())] yields, [None] when the decoding
    or the parsing raises. *)
Record MQTTMessage : Type := mkMessage {
  topic : string;
  payload_json : option Py.json
}.

Section Handler.

(** The command channel: what [_client.Enqueue.with_call] does for
    the task with a given number, either the [id] of the response or
    the exception raised in the worker. *)
Variable Enqueue_with_call : nat -> request -> Py.result string.

(** [concurrent.futures.as_completed]: the futures in the order in
    which they complete. *)
Variable as_completed : list Future -> list Future.

(** *** Timers *)

Definition Timer_new (i : Z) (arg : string) : M nat :=
  fun w => (set_timers (timers w ++ [mkTimer i arg false Created]) w,
            Py.Ok (length (timers w))).

Definition on_timer (f : Timer -> Timer) (t : nat) : M unit :=
  modify (fun w => set_timers (alter f t (timers w)) w).

(** [if _di_timeout_timer: _di_timeout_timer.cancel()] *)
Definition cancel_old : M unit :=
  let* old := gets _di_timeout_timer in
  match old with
  | Some t => on_timer Timer_cancel t
  | None => ret tt
  end.

(** [_di_timeout_timer = threading.Timer(TIMEOUT_SECONDS, lambda: process_status('H'))] *)
Definition install_new : M unit :=
  let* t := Timer_new TIMEOUT_SECONDS "H" in
  modify (set_handle (Some t)).

(** A method call through the global [_di_timeout_timer]. *)
Definition via_handle (f : Timer -> Timer) : M unit :=
  let* h := gets _di_timeout_timer in
  match h with
  | Some t => on_timer f t
  | None => raise Py.AttributeError
  end.

(** The body of [with _lock:] in [process_status]. *)
Definition arm : M unit :=
  cancel_old >>
  install_new >>
  via_handle Timer_set_daemon >>
  via_handle Timer_start.

(** *** Dispatch *)

(** [_executor.submit(...)]: the executor is never shut down while the
    handler runs ([_shutdown] is not installed as a signal handler), so
    a submission always yields a future. *)
Definition executor_submit (req : request) : M Future :=
  fun w => (set_submitted (submitted w ++ [req]) w,
            Py.Ok (mkFuture (length (submitted w)) req)).

Definition future_result (f : Future) : M string :=
  lift (Enqueue_with_call (task_id f) (task f)).

(** [{_executor.submit(_enqueue, eui, payload): eui for eui in dev_euis}] *)
Fixpoint submit_all (dev_euis : list string) (payload : list byte)
  : M (list (Future * string)) :=
  match dev_euis with
  | [] => ret []
  | eui :: rest =>
      let* f := executor_submit (_enqueue eui payload) in
      let* fs := submit_all rest payload in
      ret ((f, eui) :: fs)
  end.

(** [futures[future]] *)
Fixpoint dict_get (futures : list (Future * string)) (f : Future)
  : Py.result string :=
  match futures with
  | [] => Py.Raise Py.KeyError
  | (g, eui) :: rest =>
      if (task_id g =? task_id f)%nat then Py.Ok eui else dict_get rest f
  end.

(** The body of the loop over [as_completed(futures)]. *)
Definition collect (futures : list (Future * string)) (future : Future) : M unit :=
  let* eui := lift (dict_get futures future) in
  try_except
    (let* resp_id := future_result future in
     logger (Enqueued eui resp_id))
    (fun e =>
       match e with
       | Py.RpcError detail => logger (GrpcError eui detail)
       | Py.TimeoutError => logger (TimedOut eui)
       | _ => logger (Unexpected eui e)
       end).

Definition send_downlink_parallel (dev_euis : list string) (hex_payload : string)
  : M unit :=
  let* payload :=
    lift (match Py.fromhex hex_payload with
          | Some b => Py.Ok b
          | None => Py.Raise Py.ValueError
          end) in
  let* futures := submit_all dev_euis payload in
  for_each (as_completed (map fst futures)) (collect futures).

(** *** The debouncer *)

(** What [process_status] does after it has released [_lock]. *)
Definition dispatch_cycle (status : string) : M unit :=
  let* ctrls := (fun w => (w, read_controllers (fs w) CSV_FILE)) in
  match ctrls with
  | [] => logger NoControllers
  | _ :: _ =>
      let payload :=
        if String.eqb status "L" then PAYLOAD_LOW_HEX else PAYLOAD_HIGH_HEX in
      logger (Processing status (length ctrls) payload) >>
      send_downlink_parallel ctrls payload
  end.

Definition process_status (status : string) : M unit :=
  arm >> dispatch_cycle status.

(** *** Ingestion *)

Definition json_loads (msg : MQTTMessage) : Py.result Py.json :=
  match payload_json msg with
  | Some data => Py.Ok data
  | None => Py.Raise Py.ValueError
  end.

Definition on_message (msg : MQTTMessage) : M unit :=
  try_except
    (let topic := Py.split "/" (topic msg) in
     let* eventType := lift (Py.index topic 5) in
     let* data := lift (json_loads msg) in
     let* from_master :=
       (if String.eqb eventType "up" then
          let* deviceInfo := lift (Py.get data "deviceInfo" (Py.JObj [])) in
          let* devEui := lift (Py.get deviceInfo "devEui" Py.JNull) in
          ret (Py.eq_str devEui MASTER_EUI)
        else ret false) in
     if from_master : bool then
       let* object := lift (Py.get data "object" Py.JNull) in
       let* len_obj := lift (Py.len object) in
       if (len_obj =? 12)%nat then
         let* object := lift (Py.get data "object" (Py.JObj [])) in
         let* di1 := lift (Py.get object "DI1_status" Py.JNull) in
         match di1 with
         | Py.JStr s =>
             if String.eqb s "L" || String.eqb s "H"
             then process_status s
             else ret tt
         | _ => ret tt
         end
       else ret tt
     else ret tt)
    (fun e => logger (MessageError e)).

(** *** Expiry of a timer

    The thread of a started timer that was not cancelled marks it
    finished and runs its function, [process_status(callback)]; an
    exception of the function ends that thread only. *)
Definition timer_expire (t : nat) (w : World) : option World :=
  match timers w !! t with
  | Some tm =>
      if is_waiting tm
      then Some (fst (process_status (callback tm)
                        (set_timers (alter Timer_fire t (timers w)) w)))
      else None
  | None => None
  end.

End Handler.

(** ** Runs of the handler, one event at a time

    The MQTT loop delivers messages one after the other, a timer that
    is waiting may expire, and the CSV file may be rewritten between
    two events.  Here every event runs to completion before the next
    one starts. *)

Inductive event : Type :=
| Message (msg : MQTTMessage)
| Expiry (t : nat)
| FileChanged (files : FileSystem).

Section Runs.

Variable Enqueue_with_call : nat -> request -> Py.result string.
Variable as_completed : list Future -> list Future.

Definition run_event (e : event) (w : World) : option World :=
  match e with
  | Message msg => Some (fst (on_message Enqueue_with_call as_completed msg w))
  | Expiry t => timer_expire Enqueue_with_call as_completed t w
  | FileChanged files => Some (set_fs files w)
  end.

Fixpoint run (es : list event) (w : World) : option World :=
  match es with
  | [] => Some w
  | e :: rest =>
      match run_event e w with
      | Some w' => run rest w'
      | None => None
      end
  end.

(** Silence of the source: nothing happens but the expiry of the
    timer held in [_di_timeout_timer], once per window; [files] lists
    the content of the file system at each expiry. *)
Fixpoint silence (files : list FileSystem) (w : World) : option World :=
  match files with
  | [] => Some w
  | f :: rest =>
      match _di_timeout_timer w with
      | Some t =>
          match timer_expire Enqueue_with_call as_completed t (set_fs f w) with
          | Some w' => silence rest w'
          | None => None
          end
      | None => None
      end
  end.

End Runs.

(** ** Interleaved executions of [process_status]

    Calls of [process_status] run in several threads (the MQTT loop and
    the threads of expired timers).  Each call is a thread with a
    program counter; a step of the system is a step of one thread, the
    arrival of a call, or the expiry of a waiting timer. *)

Module Interleaving.

Inductive pc : Type :=
| AtLock       (* before [with _lock:] *)
| AtCancel     (* [if _di_timeout_timer: _di_timeout_timer.cancel()] *)
| AtInstall    (* [_di_timeout_timer = threading.Timer(...)] *)
| AtDaemon     (* [_di_timeout_timer.daemon = True] *)
| AtStart      (* [_di_timeout_timer.start()] *)
| AtRelease    (* leaving the [with] block *)
| AtDispatch   (* the rest of the function *)
| Done.

Definition in_critical_section (p : pc) : bool :=
  match p with
  | AtCancel | AtInstall | AtDaemon | AtStart | AtRelease => true
  | _ => false
  end.

Record Thread : Type := mkThread { status_arg : string; at_pc : pc }.

Record System : Type := mkSystem {
  world : World;
  _lock : option nat;            (* the thread holding [_lock] *)
  threads : list Thread
}.

Inductive label : Type :=
| Call (status : string)         (* a thread enters [process_status] *)
| Expire (t : nat)               (* the thread of timer [t] wakes up *)
| Step (i : nat)                 (* thread [i] executes one statement *)
| SetFs (files : FileSystem).

Section Steps.

Variable Enqueue_with_call : nat -> request -> Py.result string.
Variable as_completed : list Future -> list Future.

(** One statement of thread [i] inside the critical section: on an
    exception the [with] statement releases the lock and the call
    ends. *)
Definition locked_stmt (i : nat) (th : Thread) (m : M unit) (next : pc)
           (s : System) : System :=
  match m (world s) with
  | (w', Py.Ok _) =>
      mkSystem w' (_lock s) (<[i := mkThread (status_arg th) next]> (threads s))
  | (w', Py.Raise _) =>
      mkSystem w' None (<[i := mkThread (status_arg th) Done]> (threads s))
  end.

Definition thread_step (i : nat) (s : System) : option System :=
  match threads s !! i with
  | None => None
  | Some th =>
      match at_pc th with
      | AtLock =>
          match _lock s with
          | None => Some (mkSystem (world s) (Some i)
                            (<[i := mkThread (status_arg th) AtCancel]> (threads s)))
          | Some _ => None
          end
      | AtCancel => Some (locked_stmt i th cancel_old AtInstall s)
      | AtInstall => Some (locked_stmt i th install_new AtDaemon s)
      | AtDaemon => Some (locked_stmt i th (via_handle Timer_set_daemon) AtStart s)
      | AtStart => Some (locked_stmt i th (via_handle Timer_start) AtRelease s)
      | AtRelease =>
          Some (mkSystem (world s) None
                  (<[i := mkThread (status_arg th) AtDispatch]> (threads s)))
      | AtDispatch =>
          Some (mkSystem
                  (fst (dispatch_cycle Enqueue_with_call as_completed
                          (status_arg th) (world s)))
                  (_lock s)
                  (<[i := mkThread (status_arg th) Done]> (threads s)))
      | Done => None
      end
  end.

Definition sys_step (l : label) (s : System) : option System :=
  match l with
  | Call status =>
      Some (mkSystem (world s) (_lock s) (threads s ++ [mkThread status AtLock]))
  | Expire t =>
      match timers (world s) !! t with
      | Some tm =>
          if is_waiting tm
          then Some (mkSystem
                       (set_timers (alter Timer_fire t (timers (world s))) (world s))
                       (_lock s)
                       (threads s ++ [mkThread (callback tm) AtLock]))
          else None
      | None => None
      end
  | Step i => thread_step i s
  | SetFs files => Some (mkSystem (set_fs files (world s)) (_lock s) (threads s))
  end.

Fixpoint sys_run (ls : list label) (s : System) : option System :=
  match ls with
  | [] => Some s
  | l :: rest =>
      match sys_step l s with
      | Some s' => sys_run rest s'
      | None => None
      end
  end.

End Steps.

(** The system right after the module is loaded: no call is running
    and [_lock] is free. *)
Definition boot (w : World) : System := mkSystem w None [].

(** A timer that can still fire: created or started, and neither
    cancelled nor fired. *)
Definition outstanding (tm : Timer) : bool :=
  match phase tm with
  | Created | Waiting => true
  | Cancelled | Fired => false
  end.

(** Only the timer held in [_di_timeout_timer] can be outstanding. *)
Definition only_handle_outstanding (w : World) : Prop :=
  forall t tm,
    timers w !! t = Some tm -> outstanding tm = true ->
    _di_timeout_timer w = Some t.

(** No timer is outstanding. *)
Definition quiet (w : World) : Prop :=
  forall t tm, timers w !! t = Some tm -> outstanding tm = false.

(** A thread inside the [with] block holds the lock. *)
Definition mutex (s : System) : Prop :=
  forall i th,
    threads s !! i = Some th -> in_critical_section (at_pc th) = true ->
    _lock s = Some i.

Definition sys_inv (s : System) : Prop :=
  only_handle_outstanding (world s)
  /\ mutex s
  /\ (forall i th,
        threads s !! i = Some th -> at_pc th = AtInstall -> quiet (world s)).

End Interleaving.

(** ** Vocabulary of the statements *)

(** The futures of one cycle: task numbers count up from the number of
    tasks submitted before. *)
Fixpoint futures_from (n : nat) (dev_euis : list string) (payload : list byte)
  : list (Future * string) :=
  match dev_euis with
  | [] => []
  | eui :: rest =>
      (mkFuture n (_enqueue eui payload), eui) :: futures_from (S n) rest payload
  end.

(** The log record [send_downlink_parallel] writes for a member whose
    call ended with [r]. *)
Definition outcome_record (eui : string) (r : Py.result string) : log_record :=
  match r with
  | Py.Ok id => Enqueued eui id
  | Py.Raise (Py.RpcError detail) => GrpcError eui detail
  | Py.Raise Py.TimeoutError => TimedOut eui
  | Py.Raise e => Unexpected eui e
  end.

(** The record of a future: it depends on the outcome of that future's
    own call and on nothing else. *)
Definition record_of (Enqueue_with_call : nat -> request -> Py.result string)
           (f : Future) : log_record :=
  outcome_record (dev_eui (task f)) (Enqueue_with_call (task_id f) (task f)).

(** The fleet of a cycle: the members [read_controllers] returns, none
    when the file cannot be read. *)
Definition fleet (files : FileSystem) : list string :=
  match read_controllers files CSV_FILE with
  | Py.Ok ctrls => ctrls
  | Py.Raise _ => []
  end.

(** The timers after the critical section of [process_status]: the
    timer held in [_di_timeout_timer] cancelled, then a started daemon
    timer for the window appended. *)
Definition cancelled (h : option nat) (ts : list Timer) : list Timer :=
  match h with
  | Some t => alter Timer_cancel t ts
  | None => ts
  end.

Definition armed (w : World) : World :=
  set_handle (Some (length (timers w)))
    (set_timers
       (cancelled (_di_timeout_timer w) (timers w)
          ++ [mkTimer TIMEOUT_SECONDS "H" true Waiting]) w).

(** The events [on_message] hands to [process_status] with status [s]:
    uplinks (sixth topic segment ['up']) whose JSON document names the
    master in [deviceInfo.devEui] and has an [object] dict of exactly
    12 entries with [DI1_status] equal to ['L'] or ['H']. *)
Definition accepted_event (msg : MQTTMessage) (s : string) : Prop :=
  exists data info object,
    Py.split "/" (topic msg) !! 5 = Some "up"
    /\ payload_json msg = Some (Py.JObj data)
    /\ Py.assoc "deviceInfo" data = Some (Py.JObj info)
    /\ Py.assoc "devEui" info = Some (Py.JStr MASTER_EUI)
    /\ Py.assoc "object" data = Some (Py.JObj object)
    /\ length object = 12%nat
    /\ Py.assoc "DI1_status" object = Some (Py.JStr s)
    /\ (s = "L" \/ s = "H").

(** What [process_status] gives every timer it creates. *)
Definition timer_ok (tm : Timer) : Prop :=
  callback tm = "H" /\ interval tm = TIMEOUT_SECONDS.

(** The bytes sent for a status: 05 00 11 EA 60 for ['L'], 03 00 00 for
    anything else. *)
Definition payload_bytes (status : string) : list byte :=
  if String.eqb status "L" then [x05; x00; x11; xea; x60] else [x03; x00; x00].

(** ** Sample inputs

    Concrete collaborators and messages on which the statements below
    are evaluated. *)

Definition csv_of (rows : list (list string)) : FileSystem :=
  fun path => if String.eqb path CSV_FILE then Some rows else None.

(** A fleet of two controllers next to the master. *)
Definition two_controllers : FileSystem :=
  csv_of [["a84041679d5cfcf2"; "master"]; ["d1"; "controller"]; ["d2"; " controller "]].

(** A fleet of five entries, one of them listed twice. *)
Definition five_controllers : FileSystem :=
  csv_of [["d1"; "controller"]; ["d2"; "controller"]; ["d3"; "controller"];
          ["d4"; "controller"]; ["d1"; "controller"]].

Definition no_controllers : FileSystem := csv_of [["a84041679d5cfcf2"; "master"]].

Definition missing_file : FileSystem := fun _ => None.

(** A channel that acknowledges every call, and one on which the
    second call of the process fails. *)
Definition healthy_channel (n : nat) (r : request) : Py.result string :=
  Py.Ok "ack".

Definition faulty_channel (n : nat) (r : request) : Py.result string :=
  if (n =? 1)%nat then Py.Raise (Py.RpcError "UNAVAILABLE") else Py.Ok "ack".

Definition in_submission_order (l : list Future) : list Future := l.

Definition loaded : World := mkWorld two_controllers 2 [] [] None [].

(** An uplink of the master with the given [object]. *)
Definition master_uplink (object : list (string * Py.json)) : MQTTMessage :=
  mkMessage "application/1/device/a84041679d5cfcf2/event/up"
    (Some (Py.JObj [("deviceInfo", Py.JObj [("devEui", Py.JStr MASTER_EUI)]);
                    ("object", Py.JObj object)])).

Definition full_object (di1 : string) : list (string * Py.json) :=
  [("DI1_status", Py.JStr di1); ("DI2_status", Py.JStr "H");
   ("DO1_status", Py.JStr "L"); ("DO2_status", Py.JStr "L");
   ("RO1_status", Py.JStr "OFF"); ("RO2_status", Py.JStr "OFF");
   ("ACI1_mA", Py.JNum 0); ("ACI2_mA", Py.JNum 0);
   ("AVI1_V", Py.JNum 0); ("AVI2_V", Py.JNum 0);
   ("Hardware_type", Py.JStr "LT22222"); ("Work_mode", Py.JStr "2ACI+2AVI")].

Definition short_object (di1 : string) : list (string * Py.json) :=
  [("DI1_status", Py.JStr di1); ("Work_mode", Py.JStr "2ACI+2AVI")].

(** An interleaving: a first call runs to the end, its timer expires,
    and the call of the expired timer races with a second call that
    takes the lock first. *)
Definition racing_calls : list Interleaving.label :=
  let open := Interleaving.Step in
  [Interleaving.Call "L";
   open 0%nat; open 0%nat; open 0%nat; open 0%nat; open 0%nat; open 0%nat; open 0%nat;
   Interleaving.Expire 0%nat;
   Interleaving.Call "L";
   open 2%nat; open 2%nat; open 2%nat; open 2%nat; open 2%nat; open 2%nat;
   open 1%nat; open 1%nat; open 1%nat].

Definition after_race : Interleaving.System :=
  match Interleaving.sys_run healthy_channel in_submission_order racing_calls
          (Interleaving.boot loaded) with
  | Some s => s
  | None => Interleaving.boot loaded
  end.

(** ** The sequential sender and further vocabulary *)

(** The two calls [send_downlink] makes on [logger]. *)
Inductive direct_record : Type :=
| DirectEnqueued (eui id : string)
| DirectError (eui detail : string).

(** What one call of [send_downlink] does: the requests it has sent on
    its channel and the records it has logged. *)
Record Direct : Type := mkDirect {
  called : list request;
  records : list direct_record
}.

(** The loop of [send_downlink]: only [grpc.RpcError] is caught. *)
Fixpoint send_downlink_loop (Enqueue : nat -> request -> Py.result string)
         (payload : list byte) (dev_euis : list string) (st : Direct)
  : Direct * Py.result unit :=
  match dev_euis with
  | [] => (st, Py.Ok tt)
  | dev_eui :: rest =>
      let req := mkRequest dev_eui FPORT CONFIRMED payload in
      let sent := (called st ++ [req])%list in
      match Enqueue (length (called st)) req with
      | Py.Ok id =>
          send_downlink_loop Enqueue payload rest
            (mkDirect sent (records st ++ [DirectEnqueued dev_eui id])%list)
      | Py.Raise (Py.RpcError detail) =>
          send_downlink_loop Enqueue payload rest
            (mkDirect sent (records st ++ [DirectError dev_eui detail])%list)
      | Py.Raise e => (mkDirect sent (records st), Py.Raise e)
      end
  end.

(** [send_downlink(dev_euis, hex_payload)] *)
Definition send_downlink (Enqueue : nat -> request -> Py.result string)
           (dev_euis : list string) (hex_payload : string) (st : Direct)
  : Direct * Py.result unit :=
  match Py.fromhex hex_payload with
  | Some payload => send_downlink_loop Enqueue payload dev_euis st
  | None => (st, Py.Raise Py.ValueError)
  end.

(** The call of [send_downlink] number [n] is answered or fails with a
    [grpc.RpcError]. *)
Definition rpc_outcome (Enqueue : nat -> request -> Py.result string)
           (n : nat) (req : request) : Prop :=
  match Enqueue n req with
  | Py.Ok _ | Py.Raise (Py.RpcError _) => True
  | Py.Raise _ => False
  end.

(** The test [read_controllers] applies to a row of the file. *)
Definition is_controller_row (row : list string) : bool :=
  (2 <=? length row)%nat && String.eqb (Py.strip (nth 1 row "")) "controller".

(** The debouncer after at least one call of [process_status], between
    two events: the last timer created is waiting and held in
    [_di_timeout_timer], every older timer is cancelled or fired. *)
Definition armed_world (w : World) : Prop :=
  exists older,
    timers w = (older ++ [mkTimer TIMEOUT_SECONDS "H" true Waiting])%list
    /\ _di_timeout_timer w = Some (length older)
    /\ Forall (fun tm => Interleaving.outstanding tm = false) older.

(** The debouncer before the first call of [process_status]. *)
Definition idle_world (w : World) : Prop :=
  timers w = [] /\ _di_timeout_timer w = None.

Definition is_info (r : log_record) : bool :=
  match level_of r with INFO => true | ERROR => false end.

Definition acknowledged (Enqueue_with_call : nat -> request -> Py.result string)
           (f : Future) : bool :=
  match Enqueue_with_call (task_id f) (task f) with
  | Py.Ok _ => true
  | Py.Raise _ => false
  end.

(** A lock that is held is held by a thread inside the [with] block. *)
Definition holder_inside (s : Interleaving.System) : Prop :=
  forall i,
    Interleaving._lock s = Some i ->
    exists th,
      Interleaving.threads s !! i = Some th
      /\ Interleaving.in_critical_section (Interleaving.at_pc th) = true.

(** Further sample inputs. *)

Definition join_event : MQTTMessage :=
  mkMessage "application/1/device/a84041679d5cfcf2/event/join" (Some Py.JNull).

Definition foreign_uplink : MQTTMessage :=
  mkMessage "application/1/device/0000000000000001/event/up"
    (Some (Py.JObj [("deviceInfo", Py.JObj [("devEui", Py.JStr "0000000000000001")])])).

Definition bare_master_uplink : MQTTMessage :=
  mkMessage "application/1/device/a84041679d5cfcf2/event/up"
    (Some (Py.JObj [("deviceInfo", Py.JObj [("devEui", Py.JStr MASTER_EUI)])])).

(** A channel of [send_downlink] whose second call fails with an
    [RpcError], and one whose second call raises something else. *)
Definition flaky_channel (n : nat) (r : request) : Py.result string :=
  if (n =? 1)%nat then Py.Raise (Py.RpcError "UNAVAILABLE") else Py.Ok "ack".

Definition broken_channel (n : nat) (r : request) : Py.result string :=
  if (n =? 1)%nat then Py.Raise (Py.OtherError "ValueError") else Py.Ok "ack".

(** One accepted event, then silence over two windows, the file being
    removed before the second. *)
Definition sample_history : list event :=
  [Message (master_uplink (full_object "L")); Expiry 0%nat;
   FileChanged missing_file; Expiry 1%nat].

Definition after_history : World :=
  match run healthy_channel in_submission_order sample_history loaded with
  | Some w => w
  | None => loaded
  end.

(** * Properties *)

Local Open Scope list_scope.

(** ** The monad and the primitives *)

Lemma set_log_set_log l1 l2 w : set_log l2 (set_log l1 w) = set_log l2 w.
Proof. reflexivity. Qed.

Lemma set_log_same w : set_log (log w) w = w.
Proof. by destruct w. Qed.

Lemma set_submitted_same w : set_submitted (submitted w) w = w.
Proof. by destruct w. Qed.

(** A computation that only writes to the log. *)
Definition appends_log {A} (m : M A) : Prop :=
  forall w, exists l, fst (m w) = set_log (log w ++ l) w.

Lemma appends_log_ret {A} (a : A) : appends_log (ret a).
Proof. intros w. exists []. simpl. by rewrite app_nil_r, set_log_same. Qed.

Lemma appends_log_lift {A} (r : Py.result A) : appends_log (lift r).
Proof. intros w. exists []. simpl. by rewrite app_nil_r, set_log_same. Qed.

Lemma appends_log_logger r : appends_log (logger r).
Proof. intros w. by exists [r]. Qed.

Lemma appends_log_bind {A B} (m : M A) (k : A -> M B) :
  appends_log m -> (forall a, appends_log (k a)) -> appends_log (bind m k).
Proof.
  intros Hm Hk w. unfold bind.
  destruct (Hm w) as [l1 E1]. destruct (m w) as [w1 [a|e]]; simpl in E1; subst w1.
  - destruct (Hk a (set_log (log w ++ l1) w)) as [l2 E2].
    exists (l1 ++ l2). rewrite E2. simpl. by rewrite app_assoc.
  - by exists l1.
Qed.

Lemma appends_log_try {A} (m : M A) (h : Py.exn -> M A) :
  appends_log m -> (forall e, appends_log (h e)) -> appends_log (try_except m h).
Proof.
  intros Hm Hh w. unfold try_except.
  destruct (Hm w) as [l1 E1]. destruct (m w) as [w1 [a|e]]; simpl in E1; subst w1.
  - by exists l1.
  - destruct (Hh e (set_log (log w ++ l1) w)) as [l2 E2].
    exists (l1 ++ l2). rewrite E2. simpl. by rewrite app_assoc.
Qed.

Lemma appends_log_for_each {A} (l : list A) (body : A -> M unit) :
  (forall a, appends_log (body a)) -> appends_log (for_each l body).
Proof.
  intros Hb. induction l as [|a l IH]; simpl.
  - apply appends_log_ret.
  - apply appends_log_bind; auto.
Qed.

Create HintDb logs.
#[local] Hint Resolve appends_log_ret appends_log_lift appends_log_logger
  appends_log_bind appends_log_try appends_log_for_each : logs.

Section Facts.

Variable Enqueue_with_call : nat -> request -> Py.result string.
Variable as_completed : list Future -> list Future.

#[local] Abbreviation collect := (collect Enqueue_with_call).
#[local] Abbreviation record_of := (record_of Enqueue_with_call).
#[local] Abbreviation send_downlink_parallel :=
  (send_downlink_parallel Enqueue_with_call as_completed).
#[local] Abbreviation dispatch_cycle := (dispatch_cycle Enqueue_with_call as_completed).
#[local] Abbreviation process_status := (process_status Enqueue_with_call as_completed).
#[local] Abbreviation on_message := (on_message Enqueue_with_call as_completed).
#[local] Abbreviation timer_expire := (timer_expire Enqueue_with_call as_completed).
#[local] Abbreviation run_event := (run_event Enqueue_with_call as_completed).
#[local] Abbreviation run := (run Enqueue_with_call as_completed).
#[local] Abbreviation silence := (silence Enqueue_with_call as_completed).

Lemma appends_log_collect futures f : appends_log (collect futures f).
Proof.
  unfold collect, future_result.
  apply appends_log_bind; auto with logs. intros eui.
  apply appends_log_try; auto with logs.
  intros e. destruct e; auto with logs.
Qed.

(** *** Submission *)

Lemma submit_all_spec dev_euis payload w :
  submit_all dev_euis payload w
  = (set_submitted (submitted w ++ map (fun eui => _enqueue eui payload) dev_euis) w,
     Py.Ok (futures_from (length (submitted w)) dev_euis payload)).
Proof.
  revert w. induction dev_euis as [|eui rest IH]; intros w; simpl.
  - unfold ret. by rewrite app_nil_r, set_submitted_same.
  - unfold bind at 1. unfold executor_submit at 1.
    unfold bind at 1. rewrite IH. unfold ret. simpl.
    rewrite length_app. simpl. rewrite Nat.add_1_r.
    rewrite <- app_assoc. reflexivity.
Qed.

Lemma send_downlink_parallel_world dev_euis hex payload w :
  Py.fromhex hex = Some payload ->
  exists l,
    fst (send_downlink_parallel dev_euis hex w)
    = set_log (log w ++ l)
        (set_submitted
           (submitted w ++ map (fun eui => _enqueue eui payload) dev_euis) w).
Proof.
  intros Hhex. unfold send_downlink_parallel.
  unfold bind at 1. unfold lift at 1. rewrite Hhex.
  unfold bind at 1. rewrite submit_all_spec.
  edestruct (appends_log_for_each
               (as_completed (map fst (futures_from (length (submitted w)) dev_euis payload)))
               (collect (futures_from (length (submitted w)) dev_euis payload)))
    as [l El]; [apply appends_log_collect|].
  exists l. rewrite El. reflexivity.
Qed.

(** *** Collection of the outcomes *)

Lemma futures_from_ids n dev_euis payload f eui :
  In (f, eui) (futures_from n dev_euis payload) ->
  (n <= task_id f)%nat /\ dev_eui (task f) = eui.
Proof.
  revert n. induction dev_euis as [|e rest IH]; intros n; simpl; [tauto|].
  intros [E|H].
  - inversion E; subst. simpl. split; [lia|reflexivity].
  - apply IH in H. split; [lia|tauto].
Qed.

Lemma dict_get_futures_from n dev_euis payload f eui :
  In (f, eui) (futures_from n dev_euis payload) ->
  dict_get (futures_from n dev_euis payload) f = Py.Ok (dev_eui (task f)).
Proof.
  revert n. induction dev_euis as [|e rest IH]; intros n; simpl; [tauto|].
  intros [E|H].
  - inversion E; subst. simpl. by rewrite Nat.eqb_refl.
  - pose proof (futures_from_ids _ _ _ _ _ H) as [Hid _].
    destruct (Nat.eqb_spec n (task_id f)); [lia|]. eauto.
Qed.

Lemma collect_spec futures f eui w :
  dict_get futures f = Py.Ok eui ->
  collect futures f w
  = (set_log (log w ++ [outcome_record eui (Enqueue_with_call (task_id f) (task f))]) w,
     Py.Ok tt).
Proof.
  intros Hget. unfold collect, bind, lift, try_except, future_result.
  rewrite Hget.
  destruct (Enqueue_with_call (task_id f) (task f)) as [id|e]; [reflexivity|].
  destruct e; reflexivity.
Qed.

Lemma for_each_collect futures l w :
  (forall f, In f l -> dict_get futures f = Py.Ok (dev_eui (task f))) ->
  for_each l (collect futures) w
  = (set_log (log w ++ map record_of l) w, Py.Ok tt).
Proof.
  revert w. induction l as [|f l IH]; intros w Hl; simpl.
  - unfold ret. by rewrite app_nil_r, set_log_same.
  - unfold bind. rewrite (collect_spec _ _ (dev_eui (task f))) by (apply Hl; by left).
    rewrite IH by (intros g Hg; apply Hl; by right).
    simpl. by rewrite <- app_assoc.
Qed.

Section Completion.

(** Every submitted call completes: [as_completed] yields each
    future it is given exactly once. *)
Hypothesis as_completed_perm : forall l, Permutation (as_completed l) l.

Lemma send_downlink_parallel_spec dev_euis hex payload w :
  Py.fromhex hex = Some payload ->
  send_downlink_parallel dev_euis hex w
  = (set_log
       (log w ++
          map record_of
            (as_completed
               (map fst (futures_from (length (submitted w)) dev_euis payload))))
       (set_submitted
          (submitted w ++ map (fun eui => _enqueue eui payload) dev_euis) w),
     Py.Ok tt).
Proof.
  intros Hhex. unfold send_downlink_parallel.
  unfold bind at 1. unfold lift at 1. rewrite Hhex.
  unfold bind at 1. rewrite submit_all_spec.
  rewrite for_each_collect; [reflexivity|].
  intros f Hf.
  eapply Permutation_in in Hf; [|apply as_completed_perm].
  apply in_map_iff in Hf as [[g eui] [<- Hin]]. simpl.
  eapply dict_get_futures_from; eauto.
Qed.

End Completion.

(** *** The critical section *)

Lemma alter_last {A} (f : A -> A) (l : list A) (x : A) :
  alter f (length l) (l ++ [x]) = l ++ [f x].
Proof.
  rewrite <- (Nat.add_0_r (length l)). by rewrite alter_app_r.
Qed.

Lemma arm_spec w : arm w = (armed w, Py.Ok tt).
Proof.
  unfold arm, armed, cancelled, cancel_old, install_new, via_handle, Timer_new,
    on_timer, bind, gets, modify, ret. simpl.
  destruct (_di_timeout_timer w) as [t|]; simpl.
  - rewrite !alter_last, length_alter. reflexivity.
  - rewrite !alter_last. reflexivity.
Qed.

(** *** One dispatch cycle *)

Lemma payload_fromhex status :
  Py.fromhex (if String.eqb status "L" then PAYLOAD_LOW_HEX else PAYLOAD_HIGH_HEX)
  = Some (payload_bytes status).
Proof. unfold payload_bytes. by destruct (String.eqb status "L"). Qed.

Lemma dispatch_cycle_unreadable status w :
  fs w CSV_FILE = None ->
  dispatch_cycle status w = (w, Py.Raise Py.OSError).
Proof.
  intros H. unfold dispatch_cycle, bind, read_controllers. by rewrite H.
Qed.

Lemma dispatch_cycle_empty status w :
  read_controllers (fs w) CSV_FILE = Py.Ok [] ->
  dispatch_cycle status w = (set_log (log w ++ [NoControllers]) w, Py.Ok tt).
Proof. intros H. unfold dispatch_cycle, bind. by rewrite H. Qed.

Lemma dispatch_cycle_world status w :
  exists l,
    fst (dispatch_cycle status w)
    = set_log (log w ++ l)
        (set_submitted
           (submitted w
              ++ map (fun eui => _enqueue eui (payload_bytes status)) (fleet (fs w)))
           w).
Proof.
  unfold dispatch_cycle, bind, fleet.
  destruct (read_controllers (fs w) CSV_FILE) as [[|c ctrls]|e]; simpl.
  - exists [NoControllers]. by rewrite app_nil_r, set_submitted_same.
  - destruct (send_downlink_parallel_world (c :: ctrls) _ _
                (set_log (log w ++ [Processing status (S (length ctrls))
                   (if String.eqb status "L" then PAYLOAD_LOW_HEX else PAYLOAD_HIGH_HEX)]) w)
                (payload_fromhex status)) as [l El].
    eexists (_ :: l). rewrite El. simpl. by rewrite <- app_assoc.
  - exists []. by rewrite !app_nil_r, set_submitted_same, set_log_same.
Qed.

Lemma process_status_world status w :
  exists l,
    fst (process_status status w)
    = set_log (log w ++ l)
        (set_submitted
           (submitted w
              ++ map (fun eui => _enqueue eui (payload_bytes status)) (fleet (fs w)))
           (armed w)).
Proof.
  unfold process_status, bind. rewrite arm_spec.
  destruct (dispatch_cycle_world status (armed w)) as [l El]. by exists l.
Qed.

Lemma process_status_readable status w ctrls :
  read_controllers (fs w) CSV_FILE = Py.Ok ctrls ->
  submitted (fst (process_status status w))
  = submitted w ++ map (fun eui => _enqueue eui (payload_bytes status)) ctrls.
Proof.
  intros Hread. destruct (process_status_world status w) as [l El].
  rewrite El. simpl. unfold fleet. by rewrite Hread.
Qed.

(** C2: a dispatch cycle whose fleet read returns a non-empty list of
    [M] member ids submits exactly [M] enqueue calls, one per list
    entry in the order of the list (a duplicate entry is submitted as
    often as it occurs), whatever the outcome of each call and the
    order in which the calls complete; no entry is submitted a second
    time. *)
Theorem one_enqueue_per_fleet_entry status w ctrls :
  read_controllers (fs w) CSV_FILE = Py.Ok ctrls ->
  ctrls <> [] ->
  let w' := fst (process_status status w) in
  submitted w'
  = submitted w ++ map (fun eui => _enqueue eui (payload_bytes status)) ctrls
  /\ length (submitted w') = length (submitted w) + length ctrls
  /\ map dev_eui (drop (length (submitted w)) (submitted w')) = ctrls.
Proof.
  intros Hread _ w'. subst w'.
  rewrite (process_status_readable _ _ _ Hread).
  split; [reflexivity|]. split.
  - by rewrite length_app, length_map.
  - rewrite drop_app_length, map_map. simpl. apply map_id.
Qed.

Lemma payload_bytes_low : payload_bytes "L" = [x05; x00; x11; xea; x60].
Proof. reflexivity. Qed.

Lemma payload_bytes_other status :
  status <> "L" -> payload_bytes status = [x03; x00; x00].
Proof.
  intros H. unfold payload_bytes.
  by destruct (String.eqb_spec status "L").
Qed.

Lemma for_each_collect_result futures l w :
  snd (for_each l (collect futures) w) = Py.Ok tt
  \/ snd (for_each l (collect futures) w) = Py.Raise Py.KeyError.
Proof.
  revert w. induction l as [|f l IH]; intros w; simpl; [by left|].
  unfold bind. destruct (dict_get futures f) as [eui|e] eqn:Hget.
  - rewrite (collect_spec _ _ _ _ Hget). apply IH.
  - right. unfold collect, bind, lift. rewrite Hget. simpl.
    clear -Hget. induction futures as [|[g x] rest IHf]; simpl in Hget.
    + congruence.
    + destruct (task_id g =? task_id f)%nat; [discriminate|auto].
Qed.

(** C9: the choice of the payload is total over the status values and
    the conversion of the chosen constant to bytes never raises: the
    requests of a cycle for ['L'] carry the bytes 05 00 11 EA 60 and
    those of a cycle for any other value (see [payload_bytes_other])
    carry 03 00 00; [process_status] never ends with the [ValueError]
    of [bytes.fromhex]. *)
Theorem payload_mapping_total status w :
  Py.fromhex (if String.eqb status "L" then PAYLOAD_LOW_HEX else PAYLOAD_HIGH_HEX)
  = Some (if String.eqb status "L"
          then [x05; x00; x11; xea; x60] else [x03; x00; x00])
  /\ submitted (fst (process_status status w))
     = submitted w
         ++ map (fun eui =>
                   mkRequest eui FPORT CONFIRMED
                     (if String.eqb status "L"
                      then [x05; x00; x11; xea; x60] else [x03; x00; x00]))
              (fleet (fs w))
  /\ snd (process_status status w) <> Py.Raise Py.ValueError.
Proof.
  split; [apply payload_fromhex|]. split.
  - destruct (process_status_world status w) as [l El]. by rewrite El.
  - unfold process_status, bind. rewrite arm_spec.
    unfold dispatch_cycle, bind.
    destruct (read_controllers (fs (armed w)) CSV_FILE) as [[|c ctrls]|e] eqn:Hread.
    + discriminate.
    + unfold logger, modify. simpl.
      unfold send_downlink_parallel, bind, lift.
      rewrite payload_fromhex, submit_all_spec.
      match goal with
      | |- context [for_each ?l (collect ?fs) ?w0] =>
          destruct (for_each_collect_result fs l w0) as [-> | ->]
      end; discriminate.
    + simpl. unfold read_controllers in Hread.
      destruct (fs (armed w) CSV_FILE); inversion Hread. discriminate.
Qed.

(** C6 (amended): when the fleet of a cycle is empty or unreadable no
    enqueue call is made (the timer has been re-armed all the same).
    With a readable file without controllers [process_status] logs
    the error and returns; with an unreadable file it logs nothing
    and the [OSError] of the read leaves [process_status]: the thread
    of an expired timer ends with it, and the handler of [on_message]
    catches it and calls [logger.error]. *)
Theorem empty_or_unreadable_fleet status w :
  fleet (fs w) = [] ->
  let r := process_status status w in
  submitted (fst r) = submitted w
  /\ timers (fst r) = timers (armed w)
  /\ _di_timeout_timer (fst r) = Some (length (timers w))
  /\ match fs w CSV_FILE with
     | Some _ => snd r = Py.Ok tt /\ log (fst r) = log w ++ [NoControllers]
     | None =>
         snd r = Py.Raise Py.OSError
         /\ log (fst r) = log w
         /\ log (fst (try_except (process_status status)
                        (fun e => logger (MessageError e)) w))
            = log w ++ [MessageError Py.OSError]
     end.
Proof.
  intros Hfleet r. subst r. unfold try_except, process_status, bind.
  rewrite arm_spec.
  unfold fleet, read_controllers in Hfleet.
  destruct (fs w CSV_FILE) as [rows|] eqn:Hfile.
  - rewrite dispatch_cycle_empty.
    + simpl. auto.
    + unfold read_controllers. simpl. rewrite Hfile. by rewrite Hfleet.
  - rewrite dispatch_cycle_unreadable by done. simpl.
    unfold logger, modify. simpl. auto 10.
Qed.

(** *** Ingestion *)

Ltac not_accepted :=
  let s := fresh "s" in
  intros s (? & ? & ? & ? & ? & ? & ? & ? & ? & ? & ?);
  simplify_eq; try congruence.

Lemma on_message_cases msg w :
  (exists s,
      accepted_event msg s
      /\ on_message msg w
         = try_except (process_status s) (fun e => logger (MessageError e)) w)
  \/ ((forall s, ~ accepted_event msg s)
      /\ (on_message msg w = (w, Py.Ok tt)
          \/ exists e,
              on_message msg w = (set_log (log w ++ [MessageError e]) w, Py.Ok tt))).
Proof.
  unfold on_message, try_except at 1, bind, lift, json_loads, Py.index.
  destruct (Py.split "/" (topic msg) !! 5) as [ev|] eqn:Hev.
  2: { right. split; [not_accepted|]. right. by eexists. }
  destruct (payload_json msg) as [data|] eqn:Hdoc.
  2: { right. split; [not_accepted|]. right. by eexists. }
  destruct (String.eqb_spec ev "up") as [->|Hup].
  2: { right. split; [not_accepted|]. by left. }
  destruct data as [| | | | |data];
    try (right; split; [not_accepted|]; right; by eexists).
  simpl.
  destruct (Py.assoc "deviceInfo" data) as [info|] eqn:Hinfo.
  2: { right. split; [not_accepted|]. by left. }
  destruct info as [| | | | |info];
    try (right; split; [not_accepted|]; right; by eexists).
  simpl.
  destruct (Py.assoc "devEui" info) as [eui|] eqn:Heui.
  2: { right. split; [not_accepted|]. by left. }
  unfold ret.
  destruct (Py.eq_str eui MASTER_EUI) eqn:Hmaster.
  2: { right. split; [|by left]. not_accepted;
       simpl in Hmaster; by rewrite String.eqb_refl in Hmaster. }
  destruct eui as [| | |eui| |]; try discriminate. simpl in Hmaster.
  apply String.eqb_eq in Hmaster as ->.
  destruct (Py.assoc "object" data) as [object|] eqn:Hobj.
  2: { right. split; [not_accepted|]. right. by eexists. }
  destruct (Py.len object) as [n|e] eqn:Hlen.
  2: { right. split; [|right; by eexists]. not_accepted; discriminate. }
  destruct (Nat.eqb_spec n 12) as [->|Hn].
  2: { right. split; [|by left]. not_accepted; simpl in Hlen; congruence. }
  destruct object as [| | | | |object];
    try (right; split; [not_accepted|]; right; by eexists).
  simpl in Hlen. simpl.
  destruct (Py.assoc "DI1_status" object) as [di1|] eqn:Hdi1.
  2: { right. split; [not_accepted|]. by left. }
  destruct di1 as [| | |s| |];
    try (right; split; [not_accepted|]; by left).
  destruct (String.eqb_spec s "L") as [->|HL]; simpl.
  { left. exists "L". split; [|reflexivity].
    exists data, info, object. repeat split; auto. congruence. }
  destruct (String.eqb_spec s "H") as [->|HH]; simpl.
  { left. exists "H". split; [|reflexivity].
    exists data, info, object. repeat split; auto. congruence. }
  right. split; [|by left]. not_accepted; tauto.
Qed.

Lemma try_process_status s w :
  let r := try_except (process_status s) (fun e => logger (MessageError e)) w in
  snd r = Py.Ok tt
  /\ exists l, fst r = set_log (log w ++ l)
                        (set_submitted
                           (submitted w
                              ++ map (fun eui => _enqueue eui (payload_bytes s))
                                   (fleet (fs w)))
                           (armed w)).
Proof.
  destruct (process_status_world s w) as [l El]. unfold try_except.
  destruct (process_status s w) as [w1 [[]|e]]; simpl in *; subst w1.
  - split; [reflexivity|]. by exists l.
  - split; [reflexivity|]. exists (l ++ [MessageError e]). by rewrite app_assoc.
Qed.

(** C7 (amended): [on_message] never raises.  It calls
    [process_status(s)] exactly for the accepted events: uplinks of
    the master whose [object] has 12 entries and whose [DI1_status]
    is ['L'] or ['H'] (see [accepted_event]).  Every other message is
    dropped, leaving the world as it was: without any log call when a
    filter merely does not match, with one call of [logger.error]
    when reading the message raised. *)
Theorem ingestion_filter msg w :
  let r := on_message msg w in
  snd r = Py.Ok tt
  /\ ((exists s,
          accepted_event msg s
          /\ r = try_except (process_status s) (fun e => logger (MessageError e)) w
          /\ timers (fst r) = timers (armed w))
      \/ ((forall s, ~ accepted_event msg s)
          /\ (r = (w, Py.Ok tt)
              \/ exists e, r = (set_log (log w ++ [MessageError e]) w, Py.Ok tt)))).
Proof.
  intros r. subst r.
  destruct (on_message_cases msg w) as [(s & Hacc & ->)|(Hno & [-> | [e ->]])].
  - destruct (try_process_status s w) as [Hok [l El]].
    split; [exact Hok|]. left. exists s. repeat split; auto.
    simpl in El. by rewrite El.
  - split; [reflexivity|]. right. split; auto.
  - split; [reflexivity|]. right. split; eauto.
Qed.

(** *** What every run preserves *)

Lemma armed_timers_ok w :
  Forall timer_ok (timers w) -> Forall timer_ok (timers (armed w)).
Proof.
  intros H. simpl. apply Forall_app. split.
  - unfold cancelled. destruct (_di_timeout_timer w); [|done].
    apply Forall_alter; [done|].
    intros tm _ [? ?]. unfold Timer_cancel. by destruct (phase tm).
  - by repeat constructor.
Qed.

Lemma fired_timers_ok t ts :
  Forall timer_ok ts -> Forall timer_ok (alter Timer_fire t ts).
Proof. intros H. apply Forall_alter; [done|]. by intros tm _ [? ?]. Qed.

Lemma run_event_preserves e w w' :
  run_event e w = Some w' ->
  MAX_WORKERS w' = MAX_WORKERS w
  /\ (Forall timer_ok (timers w) -> Forall timer_ok (timers w')).
Proof.
  destruct e as [msg|t|files]; simpl.
  - intros [= <-].
    destruct (on_message_cases msg w) as [(s & _ & ->)|(_ & [-> | [e ->]])];
      [|done..].
    destruct (try_process_status s w) as [_ [l El]]. simpl in El. rewrite El.
    split; [reflexivity|apply armed_timers_ok].
  - unfold timer_expire.
    destruct (timers w !! t) as [tm|]; [|done].
    destruct (is_waiting tm); [|done]. intros [= <-].
    match goal with
    | |- context [process_status ?s ?w0] =>
        destruct (process_status_world s w0) as [l El]
    end.
    rewrite El. split; [reflexivity|].
    intros H. apply armed_timers_ok. simpl. by apply fired_timers_ok.
  - by intros [= <-].
Qed.

Lemma run_preserves es w w' :
  run es w = Some w' ->
  MAX_WORKERS w' = MAX_WORKERS w
  /\ (Forall timer_ok (timers w) -> Forall timer_ok (timers w')).
Proof.
  revert w. induction es as [|e es IH]; intros w; simpl.
  - by intros [= <-].
  - destruct (run_event e w) as [w1|] eqn:He; [|done].
    intros Hrun. apply run_event_preserves in He as [HM HT].
    apply IH in Hrun as [HM' HT']. split; [congruence|auto].
Qed.

Lemma module_load_ok files w0 :
  module_load files = Py.Ok w0 ->
  exists c ctrls,
    read_controllers files CSV_FILE = Py.Ok (c :: ctrls)
    /\ w0 = mkWorld files (Nat.min (S (length ctrls)) WORKER_CAP) [] [] None [].
Proof.
  unfold module_load, ThreadPoolExecutor.
  destruct (read_controllers files CSV_FILE) as [[|c ctrls]|e]; [done| |done].
  simpl. intros [= <-]. by exists c, ctrls.
Qed.

(** C10: when the fleet read at load time returns no controller, the
    construction of the executor with [min(0, 10) = 0] workers raises
    [ValueError] and the module does not load, so no event is ever
    processed; when it returns some, the pool gets
    [min(count, 10)] workers and no later event changes that size. *)
Theorem startup_with_empty_fleet files :
  match read_controllers files CSV_FILE with
  | Py.Ok [] =>
      ThreadPoolExecutor (Nat.min 0 WORKER_CAP) = Py.Raise Py.ValueError
      /\ module_load files = Py.Raise Py.ValueError
  | Py.Ok ctrls =>
      exists w0,
        module_load files = Py.Ok w0
        /\ MAX_WORKERS w0 = Nat.min (length ctrls) WORKER_CAP
        /\ forall es w, run es w0 = Some w -> MAX_WORKERS w = MAX_WORKERS w0
  | Py.Raise e => module_load files = Py.Raise e
  end.
Proof.
  unfold module_load.
  destruct (read_controllers files CSV_FILE) as [[|c ctrls]|e]; [done| |done].
  eexists. split; [reflexivity|]. split; [reflexivity|].
  intros es w Hrun. by apply run_preserves in Hrun as [-> _].
Qed.


(** *** The deadman timer *)

Lemma process_status_armed status w :
  let w' := fst (process_status status w) in
  timers w' = cancelled (_di_timeout_timer w) (timers w)
                ++ [mkTimer TIMEOUT_SECONDS "H" true Waiting]
  /\ _di_timeout_timer w' = Some (length (timers w))
  /\ timers w' !! length (timers w) = Some (mkTimer TIMEOUT_SECONDS "H" true Waiting).
Proof.
  destruct (process_status_world status w) as [l El]. simpl. rewrite El. simpl.
  split; [reflexivity|]. split; [reflexivity|].
  assert (length (cancelled (_di_timeout_timer w) (timers w)) = length (timers w))
    as <-.
  { unfold cancelled. destruct (_di_timeout_timer w); [apply length_alter|done]. }
  apply list_lookup_middle. reflexivity.
Qed.

(** C4 (amended): after the module is loaded the debouncer is not
    armed: [_di_timeout_timer] is [None] and no timer exists, so no
    expiry can happen and silence of the source from the start
    triggers nothing.  The first call of [process_status] (the first
    accepted event) arms the first timer. *)
Theorem debouncer_unarmed_at_startup files w0 :
  module_load files = Py.Ok w0 ->
  _di_timeout_timer w0 = None
  /\ timers w0 = []
  /\ (forall t, timer_expire t w0 = None)
  /\ (forall f fileseq, silence (f :: fileseq) w0 = None)
  /\ (forall status,
        let w1 := fst (process_status status w0) in
        _di_timeout_timer w1 = Some 0%nat
        /\ timers w1 = [mkTimer TIMEOUT_SECONDS "H" true Waiting]).
Proof.
  intros Hload. apply module_load_ok in Hload as (c & ctrls & _ & ->).
  do 4 (split; [done|]). intros status.
  destruct (process_status_armed status
              (mkWorld files (Nat.min (S (length ctrls)) WORKER_CAP) [] [] None []))
    as (Htm & Hh & _).
  by split.
Qed.




End Facts.

(** ** Isolation of the members of a cycle *)

Lemma futures_from_lookup n dev_euis payload i f :
  map fst (futures_from n dev_euis payload) !! i = Some f ->
  task_id f = (n + i)%nat.
Proof.
  revert n i. induction dev_euis as [|e rest IH]; intros n i; simpl; [done|].
  destruct i as [|i]; simpl.
  - intros [= <-]. simpl. lia.
  - intros H. apply IH in H. lia.
Qed.

Lemma futures_from_length n dev_euis payload :
  length (futures_from n dev_euis payload) = length dev_euis.
Proof.
  revert n. induction dev_euis as [|e rest IH]; intros n; simpl; [done|].
  by rewrite IH.
Qed.

Section Isolation.

(** Two behaviours of the command channel and two completion orders
    for the same cycle. *)
Variables E1 E2 : nat -> request -> Py.result string.
Variables order1 order2 : list Future -> list Future.
Hypothesis order1_perm : forall l, Permutation (order1 l) l.
Hypothesis order2_perm : forall l, Permutation (order2 l) l.

(** C8: let two executions of the same cycle differ only in the
    outcome of the call of the member at position [k] (an error or a
    timeout in one, something else in the other).  Both executions
    run to completion, both submit the call of every member, both
    record exactly one outcome per member, and the record of every
    member other than the one at [k] is the same in both. *)
Theorem member_failure_is_isolated dev_euis hex payload w k :
  Py.fromhex hex = Some payload ->
  (forall n r, n <> (length (submitted w) + k)%nat -> E1 n r = E2 n r) ->
  let futures := map fst (futures_from (length (submitted w)) dev_euis payload) in
  let r1 := send_downlink_parallel E1 order1 dev_euis hex w in
  let r2 := send_downlink_parallel E2 order2 dev_euis hex w in
  snd r1 = Py.Ok tt /\ snd r2 = Py.Ok tt
  /\ submitted (fst r1) = submitted w ++ map (fun eui => _enqueue eui payload) dev_euis
  /\ submitted (fst r2) = submitted (fst r1)
  /\ length futures = length dev_euis
  /\ Permutation (drop (length (log w)) (log (fst r1))) (map (record_of E1) futures)
  /\ Permutation (drop (length (log w)) (log (fst r2))) (map (record_of E2) futures)
  /\ forall i f, futures !! i = Some f -> i <> k -> record_of E1 f = record_of E2 f.
Proof.
  intros Hhex Hsame futures r1 r2. subst r1 r2.
  rewrite (send_downlink_parallel_spec E1 order1 order1_perm _ _ _ _ Hhex).
  rewrite (send_downlink_parallel_spec E2 order2 order2_perm _ _ _ _ Hhex).
  simpl. fold futures.
  do 4 (split; [reflexivity|]).
  split; [subst futures; by rewrite length_map, futures_from_length|].
  rewrite !drop_app_length.
  split; [by apply Permutation_map|]. split; [by apply Permutation_map|].
  intros i f Hf Hik. unfold record_of.
  rewrite Hsame; [reflexivity|].
  apply futures_from_lookup in Hf. lia.
Qed.

End Isolation.

(** ** The single outstanding timer *)

Lemma filter_at_most_one {A} (p : A -> bool) (l : list A) :
  (forall i j x y,
      l !! i = Some x -> l !! j = Some y -> p x = true -> p y = true -> i = j) ->
  (length (List.filter p l) <= 1)%nat.
Proof.
  induction l as [|a l IH]; intros H; simpl; [lia|].
  destruct (p a) eqn:Hpa; simpl.
  - assert (List.filter p l = []) as ->; [|simpl; lia].
    destruct (List.filter p l) as [|b rest] eqn:Hf; [done|].
    assert (In b (List.filter p l)) as Hb by (rewrite Hf; by left).
    apply filter_In in Hb as [Hin Hpb].
    apply list_elem_of_In, list_elem_of_lookup in Hin as [j Hj].
    specialize (H 0%nat (S j) a b eq_refl Hj Hpa Hpb). discriminate.
  - apply IH. intros i j x y Hi Hj Hx Hy.
    specialize (H (S i) (S j) x y Hi Hj Hx Hy). lia.
Qed.

Section Invariant.

Import Interleaving.

Variable Enqueue_with_call : nat -> request -> Py.result string.
Variable as_completed : list Future -> list Future.

#[local] Abbreviation thread_step := (thread_step Enqueue_with_call as_completed).
#[local] Abbreviation sys_step := (sys_step Enqueue_with_call as_completed).
#[local] Abbreviation sys_run := (sys_run Enqueue_with_call as_completed).

Lemma quiet_only_handle w : quiet w -> only_handle_outstanding w.
Proof. intros Hq t tm Ht Ho. rewrite (Hq t tm Ht) in Ho. discriminate. Qed.

(** The statements of the critical section, one by one. *)

Lemma cancel_old_quiet w :
  only_handle_outstanding w ->
  snd (cancel_old w) = Py.Ok tt /\ quiet (fst (cancel_old w)).
Proof.
  intros Hinv. unfold cancel_old, bind, gets, on_timer, modify.
  destruct (_di_timeout_timer w) as [h|] eqn:Hh; simpl.
  - split; [reflexivity|]. intros t tm Ht. simpl in Ht.
    destruct (decide (h = t)) as [->|Hne].
    + rewrite list_lookup_alter_eq in Ht.
      destruct (timers w !! t) as [tm0|]; [|done].
      simpl in Ht. injection Ht as <-.
      unfold Timer_cancel, outstanding.
      destruct (phase tm0) eqn:E; simpl; by rewrite ?E.
    + rewrite list_lookup_alter_ne in Ht by done.
      destruct (outstanding tm) eqn:Ho; [|done].
      specialize (Hinv t tm Ht Ho). congruence.
  - split; [reflexivity|]. intros t tm Ht.
    destruct (outstanding tm) eqn:Ho; [|done].
    specialize (Hinv t tm Ht Ho). congruence.
Qed.

Lemma install_new_only_handle w :
  quiet w ->
  snd (install_new w) = Py.Ok tt /\ only_handle_outstanding (fst (install_new w)).
Proof.
  intros Hq. unfold install_new, bind, Timer_new, modify. simpl.
  split; [reflexivity|]. intros t tm Ht Ho. simpl in *.
  apply lookup_snoc_Some in Ht as [[Hlt Ht]|[-> _]]; [|done].
  rewrite (Hq t tm Ht) in Ho. discriminate.
Qed.

Lemma via_handle_preserves (f : Timer -> Timer) w :
  (forall tm, outstanding (f tm) = outstanding tm) ->
  only_handle_outstanding w ->
  only_handle_outstanding (fst (via_handle f w)).
Proof.
  intros Hf Hinv. unfold via_handle, bind, gets, on_timer, modify, raise.
  destruct (_di_timeout_timer w) as [h|] eqn:Hh; simpl; [|done].
  intros t tm Ht Ho. simpl in *.
  destruct (decide (h = t)) as [->|Hne]; [done|].
  rewrite list_lookup_alter_ne in Ht by done.
  specialize (Hinv t tm Ht Ho). congruence.
Qed.

Lemma thread_update (i : nat) (th : Thread) (ths : list Thread) j thj :
  <[i := th]> ths !! j = Some thj ->
  (j = i /\ thj = th) \/ (j <> i /\ ths !! j = Some thj).
Proof.
  intros H. apply list_lookup_insert_Some in H as [(-> & -> & _)|[Hne H]]; auto.
Qed.

(** A statement executed by the holder of the lock keeps the system
    invariant as soon as it keeps the invariant of the world. *)
Lemma locked_stmt_inv i th m next s :
  sys_inv s ->
  threads s !! i = Some th ->
  in_critical_section (at_pc th) = true ->
  in_critical_section next = true ->
  only_handle_outstanding (fst (m (world s))) ->
  (next = AtInstall -> snd (m (world s)) = Py.Ok tt -> quiet (fst (m (world s)))) ->
  sys_inv (locked_stmt i th m next s).
Proof.
  intros (Hw & Hmx & Hq) Hth Hcrit Hnext Hw' Hq'.
  pose proof (Hmx i th Hth Hcrit) as Hlock.
  unfold locked_stmt.
  destruct (m (world s)) as [w' [[]|e]]; simpl in *; (split; [exact Hw'|]); split.
  - intros j thj Hj Hc. apply thread_update in Hj as [[-> ->]|[Hne Hj]]; simpl; eauto.
  - intros j thj Hj Hpc. apply thread_update in Hj as [[-> ->]|[Hne Hj]]; simpl in *.
    + auto.
    + assert (_lock s = Some j) by (apply (Hmx j thj Hj); by rewrite Hpc). congruence.
  - intros j thj Hj Hc. apply thread_update in Hj as [[-> ->]|[Hne Hj]]; simpl in *.
    + discriminate.
    + specialize (Hmx j thj Hj Hc). congruence.
  - intros j thj Hj Hpc. apply thread_update in Hj as [[-> ->]|[Hne Hj]]; simpl in *.
    + discriminate.
    + assert (_lock s = Some j) by (apply (Hmx j thj Hj); by rewrite Hpc). congruence.
Qed.

Lemma same_timers_inv w w' :
  timers w' = timers w ->
  _di_timeout_timer w' = _di_timeout_timer w ->
  (only_handle_outstanding w -> only_handle_outstanding w')
  /\ (quiet w -> quiet w').
Proof.
  intros Ht Hh. unfold only_handle_outstanding, quiet. rewrite Ht, Hh. auto.
Qed.

(** A step of thread [i] outside the critical section: it does not
    touch the timers and does not enter the statement that installs
    a timer. *)
Lemma frame_step_inv i th next w' lock' s :
  sys_inv s ->
  threads s !! i = Some th ->
  timers w' = timers (world s) ->
  _di_timeout_timer w' = _di_timeout_timer (world s) ->
  (forall j thj, j <> i -> threads s !! j = Some thj ->
                 in_critical_section (at_pc thj) = true -> lock' = Some j) ->
  (in_critical_section next = true -> lock' = Some i) ->
  next <> AtInstall ->
  sys_inv (mkSystem w' lock' (<[i := mkThread (status_arg th) next]> (threads s))).
Proof.
  intros (Hw & Hmx & Hq) Hth Ht Hh Hothers Hself Hnext.
  destruct (same_timers_inv (world s) w' Ht Hh) as [Hw' Hq'].
  split; [auto|]. split; simpl.
  - intros j thj Hj Hc. apply thread_update in Hj as [[-> ->]|[Hne Hj]]; eauto.
  - intros j thj Hj Hpc. apply thread_update in Hj as [[-> ->]|[Hne Hj]]; [done|].
    eauto.
Qed.

Lemma thread_step_inv i s s' :
  sys_inv s -> thread_step i s = Some s' -> sys_inv s'.
Proof.
  intros Hinv. pose proof Hinv as (Hw & Hmx & Hq). unfold thread_step.
  destruct (threads s !! i) as [th|] eqn:Hth; [|done].
  destruct (at_pc th) eqn:Hpc.
  - destruct (_lock s) eqn:Hlock; [done|]. intros [= <-].
    apply frame_step_inv; auto; [].
    intros j thj _ Hj Hc. specialize (Hmx j thj Hj Hc). congruence.
  - intros [= <-].
    apply locked_stmt_inv; auto; [by rewrite Hpc| |].
    + by apply quiet_only_handle, cancel_old_quiet.
    + intros _ _. by apply cancel_old_quiet.
  - intros [= <-].
    apply locked_stmt_inv; auto; [by rewrite Hpc| |done].
    apply install_new_only_handle. eauto.
  - intros [= <-].
    apply locked_stmt_inv; auto; [by rewrite Hpc| |done].
    by apply via_handle_preserves.
  - intros [= <-].
    apply locked_stmt_inv; auto; [by rewrite Hpc| |done].
    apply via_handle_preserves; [|done].
    intros tm. unfold Timer_start, outstanding.
    destruct (phase tm) eqn:E; simpl; by rewrite ?E.
  - intros [= <-].
    assert (_lock s = Some i) as Hlock by (apply (Hmx i th Hth); by rewrite Hpc).
    apply frame_step_inv; auto; try done; [].
    intros j thj Hne Hj Hc. specialize (Hmx j thj Hj Hc). congruence.
  - intros [= <-].
    destruct (dispatch_cycle_world Enqueue_with_call as_completed
                (status_arg th) (world s)) as [l El].
    apply frame_step_inv; auto; try done; try (by rewrite El).
    intros j thj _ Hj Hc. eauto.
  - done.
Qed.

Lemma sys_step_inv l s s' :
  sys_inv s -> sys_step l s = Some s' -> sys_inv s'.
Proof.
  intros Hinv. pose proof Hinv as (Hw & Hmx & Hq).
  destruct l as [status|t|i|files]; simpl.
  - intros [= <-]. split; [done|]. split; simpl.
    + intros j thj Hj Hc.
      apply lookup_snoc_Some in Hj as [[_ Hj]|[_ <-]]; [eauto|done].
    + intros j thj Hj Hpc.
      apply lookup_snoc_Some in Hj as [[_ Hj]|[_ <-]]; [eauto|done].
  - destruct (timers (world s) !! t) as [tm|] eqn:Ht; [|done].
    destruct (is_waiting tm); [|done]. intros [= <-].
    assert (forall t' tm', alter Timer_fire t (timers (world s)) !! t' = Some tm' ->
              outstanding tm' = true ->
              timers (world s) !! t' = Some tm' /\ t' <> t) as Hfire.
    { intros t' tm' Ht' Ho. destruct (decide (t = t')) as [->|Hne].
      - rewrite list_lookup_alter_eq, Ht in Ht'. simpl in Ht'.
        injection Ht' as <-. discriminate.
      - by rewrite list_lookup_alter_ne in Ht'. }
    split; simpl.
    { intros t' tm' Ht' Ho. destruct (Hfire t' tm' Ht' Ho). eauto. }
    split; simpl.
    + intros j thj Hj Hc.
      apply lookup_snoc_Some in Hj as [[_ Hj]|[_ <-]]; [eauto|done].
    + intros j thj Hj Hpc.
      apply lookup_snoc_Some in Hj as [[_ Hj]|[_ <-]]; [|done].
      intros t' tm' Ht'. simpl in Ht'.
      destruct (outstanding tm') eqn:Ho; [|done].
      destruct (Hfire t' tm' Ht' Ho) as [Hold _].
      rewrite (Hq j thj Hj Hpc t' tm' Hold) in Ho. done.
  - apply thread_step_inv, Hinv.
  - intros [= <-]. split; [done|]. split; [done|]. simpl. eauto.
Qed.

Lemma sys_run_inv ls s s' :
  sys_inv s -> sys_run ls s = Some s' -> sys_inv s'.
Proof.
  revert s. induction ls as [|l ls IH]; intros s Hinv; simpl.
  - by intros [= <-].
  - destruct (sys_step l s) as [s1|] eqn:Hstep; [|done].
    apply IH. eapply sys_step_inv; eauto.
Qed.

Lemma boot_inv files w0 :
  module_load files = Py.Ok w0 -> sys_inv (boot w0).
Proof.
  intros Hload.
  apply module_load_ok in Hload as (c & ctrls & _ & ->).
  split; [|split]; intros ? ? H; simpl in H; done.
Qed.

(** C1: in every interleaving of calls of [process_status], expiries
    of timers and rewrites of the file, starting from the loaded
    module: (1) a thread that is about to install the new timer has
    the lock, and at that moment no timer is outstanding, the one
    held before having been cancelled (or having fired); (2) two
    threads are never both inside the [with _lock] block; (3) at any
    instant at most one timer is outstanding, and it is the one held
    in [_di_timeout_timer]. *)
Theorem single_outstanding_timer files w0 ls s :
  module_load files = Py.Ok w0 ->
  sys_run ls (boot w0) = Some s ->
  (forall i th,
      threads s !! i = Some th -> at_pc th = AtInstall ->
      _lock s = Some i
      /\ Forall (fun tm => outstanding tm = false) (timers (world s)))
  /\ (forall i j thi thj,
        threads s !! i = Some thi -> threads s !! j = Some thj ->
        in_critical_section (at_pc thi) = true ->
        in_critical_section (at_pc thj) = true -> i = j)
  /\ (forall t tm,
        timers (world s) !! t = Some tm -> outstanding tm = true ->
        _di_timeout_timer (world s) = Some t)
  /\ (length (List.filter outstanding (timers (world s))) <= 1)%nat.
Proof.
  intros Hload Hrun.
  assert (sys_inv s) as (Hw & Hmx & Hq).
  { eapply sys_run_inv; [|exact Hrun]. eapply boot_inv; eauto. }
  split; [|split; [|split]].
  - intros i th Hth Hpc. split.
    + apply (Hmx i th Hth). by rewrite Hpc.
    + apply Forall_lookup_2. intros t tm Ht. eapply Hq; eauto.
  - intros i j thi thj Hi Hj Hci Hcj.
    pose proof (Hmx i thi Hi Hci). pose proof (Hmx j thj Hj Hcj). congruence.
  - exact Hw.
  - apply filter_at_most_one. intros t1 t2 tm1 tm2 H1 H2 Ho1 Ho2.
    pose proof (Hw t1 tm1 H1 Ho1). pose proof (Hw t2 tm2 H2 Ho2). congruence.
Qed.

(** A call that is not interrupted is a call of the sequential
    [process_status]: the two models agree. *)
Lemma uninterrupted_call i th s :
  threads s !! i = Some th ->
  at_pc th = AtLock ->
  _lock s = None ->
  sys_run [Step i; Step i; Step i; Step i; Step i; Step i; Step i] s
  = Some (mkSystem
            (fst (process_status Enqueue_with_call as_completed
                    (status_arg th) (world s)))
            None
            (<[i := mkThread (status_arg th) Done]> (threads s))).
Proof.
  intros Hth Hpc Hlock.
  assert (i < length (threads s))%nat as Hi by (eapply lookup_lt_Some; eauto).
  unfold process_status, bind. rewrite arm_spec.
  destruct s as [w lk ths]. simpl in *. subst lk.
  unfold thread_step at 1. simpl. rewrite Hth, Hpc.
  unfold thread_step at 1. simpl.
  rewrite list_lookup_insert_eq by done. simpl.
  unfold locked_stmt at 1. simpl.
  assert (cancel_old w
          = (set_timers (cancelled (_di_timeout_timer w) (timers w)) w, Py.Ok tt))
    as ->.
  { unfold cancel_old, bind, gets, on_timer, modify, ret, cancelled.
    destruct (_di_timeout_timer w); [done|]. by destruct w. }
  unfold thread_step at 1. simpl.
  rewrite list_lookup_insert_eq by (by rewrite length_insert). simpl.
  unfold thread_step at 1. simpl.
  rewrite list_lookup_insert_eq by (by rewrite !length_insert). simpl.
  unfold locked_stmt at 1. simpl.
  rewrite alter_last. simpl.
  unfold thread_step at 1. simpl.
  rewrite list_lookup_insert_eq by (by rewrite !length_insert). simpl.
  unfold locked_stmt at 1. simpl.
  rewrite alter_last. simpl.
  unfold thread_step at 1. simpl.
  rewrite list_lookup_insert_eq by (by rewrite !length_insert). simpl.
  unfold thread_step at 1. simpl.
  rewrite list_lookup_insert_eq by (by rewrite !length_insert). simpl.
  rewrite !list_insert_insert_eq.
  assert (length (cancelled (_di_timeout_timer w) (timers w)) = length (timers w))
    as ->; [|reflexivity].
  unfold cancelled. destruct (_di_timeout_timer w); [apply length_alter|done].
Qed.

End Invariant.

(** * The statements on sample inputs *)

(** C1 on the race [racing_calls]: the call of the expired timer is in
    the middle of the critical section, and the only outstanding timer
    is the one it has just installed. *)
Lemma single_outstanding_timer_witness :
  module_load two_controllers = Py.Ok loaded
  /\ Interleaving.sys_run healthy_channel in_submission_order racing_calls
       (Interleaving.boot loaded) = Some after_race
  /\ (length (List.filter Interleaving.outstanding
                (timers (Interleaving.world after_race))) <= 1)%nat.
Proof.
  assert (module_load two_controllers = Py.Ok loaded) as Hload
    by (vm_compute; reflexivity).
  assert (Interleaving.sys_run healthy_channel in_submission_order racing_calls
            (Interleaving.boot loaded) = Some after_race) as Hrun
    by (vm_compute; reflexivity).
  split; [exact Hload|]. split; [exact Hrun|].
  exact (proj2 (proj2 (proj2
           (single_outstanding_timer healthy_channel in_submission_order
              two_controllers loaded racing_calls after_race Hload Hrun)))).
Defined.

(** C2 on a fleet of five entries with a duplicate, over a channel on
    which one call fails. *)
Lemma one_enqueue_per_fleet_entry_witness :
  read_controllers five_controllers CSV_FILE
  = Py.Ok ["d1"; "d2"; "d3"; "d4"; "d1"]
  /\ length (submitted
               (fst (process_status faulty_channel in_submission_order "L"
                       (set_fs five_controllers loaded)))) = 5%nat.
Proof.
  split; [reflexivity|].
  apply (one_enqueue_per_fleet_entry faulty_channel in_submission_order "L"
           (set_fs five_controllers loaded) ["d1"; "d2"; "d3"; "d4"; "d1"]);
    [reflexivity|discriminate].
Defined.

Definition armed_once : World :=
  fst (process_status healthy_channel in_submission_order "L" loaded).


(** C4 fails: right after the load no timer exists, and the first
    window of silence triggers nothing. *)
Lemma armed_at_startup_counterexample :
  module_load two_controllers = Py.Ok loaded
  /\ _di_timeout_timer loaded = None
  /\ timers loaded = []
  /\ ~ (exists t tm, timers loaded !! t = Some tm /\ phase tm = Waiting)
  /\ silence healthy_channel in_submission_order [two_controllers] loaded = None.
Proof.
  repeat split; try reflexivity.
  intros (t & tm & Ht & _). discriminate.
Defined.

Lemma debouncer_unarmed_at_startup_witness :
  module_load two_controllers = Py.Ok loaded
  /\ _di_timeout_timer loaded = None
  /\ _di_timeout_timer armed_once = Some 0%nat.
Proof.
  split; [reflexivity|].
  destruct (debouncer_unarmed_at_startup healthy_channel in_submission_order
              two_controllers loaded eq_refl) as (Hnone & _ & _ & _ & Hfirst).
  split; [exact Hnone|]. exact (proj1 (Hfirst "L")).
Defined.




(** C6 fails for an unreadable file: nothing is logged and the
    exception of the read leaves [process_status]; after the expiry of
    the deadman timer over an unreadable file the log is what it was
    before. *)
Lemma unreadable_fleet_counterexample :
  fs (set_fs missing_file loaded) CSV_FILE = None
  /\ snd (process_status healthy_channel in_submission_order "H"
            (set_fs missing_file loaded)) = Py.Raise Py.OSError
  /\ log (fst (process_status healthy_channel in_submission_order "H"
                 (set_fs missing_file loaded))) = []
  /\ log <$> timer_expire healthy_channel in_submission_order 0%nat
               (set_fs missing_file armed_once)
     = Some (log armed_once).
Proof.
  split; [vm_compute; reflexivity|].
  split; [vm_compute; reflexivity|].
  split; vm_compute; reflexivity.
Defined.

Lemma empty_or_unreadable_fleet_witness :
  fleet (fs (set_fs no_controllers loaded)) = []
  /\ submitted (fst (process_status healthy_channel in_submission_order "H"
                       (set_fs no_controllers loaded))) = [].
Proof.
  split; [reflexivity|].
  apply (empty_or_unreadable_fleet healthy_channel in_submission_order "H"
           (set_fs no_controllers loaded)). reflexivity.
Defined.

(** C7 fails: an uplink of the master with the recognized token ['L']
    but an [object] of two entries is not forwarded, and it is dropped
    without any log record. *)
Lemma master_token_dropped_counterexample :
  Py.get (Py.JObj [("devEui", Py.JStr MASTER_EUI)]) "devEui" Py.JNull
  = Py.Ok (Py.JStr MASTER_EUI)
  /\ Py.assoc "DI1_status" (short_object "L") = Some (Py.JStr "L")
  /\ on_message healthy_channel in_submission_order
       (master_uplink (short_object "L")) loaded = (loaded, Py.Ok tt).
Proof. repeat split; reflexivity. Defined.

Lemma ingestion_filter_witness :
  snd (on_message healthy_channel in_submission_order
         (master_uplink (full_object "H")) loaded) = Py.Ok tt.
Proof.
  apply (ingestion_filter healthy_channel in_submission_order
           (master_uplink (full_object "H")) loaded).
Defined.

(** C8 on a fleet of three: the call of the second member succeeds in
    one execution and fails in the other. *)
Lemma member_failure_is_isolated_witness :
  Py.fromhex PAYLOAD_LOW_HEX = Some [x05; x00; x11; xea; x60]
  /\ snd (send_downlink_parallel faulty_channel (@rev Future)
            ["d1"; "d2"; "d3"] PAYLOAD_LOW_HEX loaded) = Py.Ok tt.
Proof.
  split; [reflexivity|].
  apply (member_failure_is_isolated healthy_channel faulty_channel
           in_submission_order (@rev Future)
           (fun l => Permutation_refl l)
           (fun l => Permutation_sym (Permutation_rev l))
           ["d1"; "d2"; "d3"] PAYLOAD_LOW_HEX [x05; x00; x11; xea; x60] loaded 1%nat).
  - reflexivity.
  - intros n r Hn. unfold healthy_channel, faulty_channel.
    destruct (Nat.eqb_spec n 1); [simpl in Hn; lia|reflexivity].
Defined.

Lemma payload_mapping_total_witness :
  Py.fromhex PAYLOAD_HIGH_HEX = Some [x03; x00; x00].
Proof.
  apply (payload_mapping_total healthy_channel in_submission_order "H" loaded).
Defined.

Lemma startup_with_empty_fleet_witness :
  module_load no_controllers = Py.Raise Py.ValueError.
Proof.
  apply (startup_with_empty_fleet healthy_channel in_submission_order no_controllers).
Defined.

(** * Further properties of the script *)

(** ** The fleet file *)

Lemma controllers_fold rows acc :
  fold_left
    (fun controllers row =>
       if (2 <=? length row)%nat
          && String.eqb (Py.strip (nth 1 row "")) "controller"
       then controllers ++ [Py.strip (nth 0 row "")]
       else controllers)
    rows acc
  = acc ++ map (fun row => Py.strip (nth 0 row ""))
             (List.filter is_controller_row rows).
Proof.
  revert acc. induction rows as [|row rows IH]; intros acc.
  - simpl. by rewrite app_nil_r.
  - cbn [fold_left List.filter]. rewrite IH.
    destruct (is_controller_row row) eqn:E; unfold is_controller_row in E;
      rewrite E; [|reflexivity].
    cbn [map]. rewrite <- app_assoc. reflexivity.
Qed.

(** X1: [read_controllers] keeps, in the order of the file and with
    their repetitions, the first column (stripped) of exactly the rows
    that have at least two columns and whose second column, stripped,
    is ['controller']; rows are handled independently, so the result
    for a file made of two parts is the concatenation of the results. *)
Theorem controllers_of_filter rows1 rows2 :
  controllers_of rows1
  = map (fun row => Py.strip (nth 0 row "")) (List.filter is_controller_row rows1)
  /\ controllers_of (rows1 ++ rows2) = controllers_of rows1 ++ controllers_of rows2
  /\ (length (controllers_of rows1) <= length rows1)%nat.
Proof.
  unfold controllers_of. rewrite !controllers_fold. simpl.
  split; [reflexivity|]. split.
  - by rewrite List.filter_app, map_app.
  - rewrite length_map. apply List.filter_length_le.
Qed.

(** X2: an EUI is dispatched to exactly when some row of the file has
    at least two columns, ['controller'] as its stripped second column
    and that EUI as its stripped first column. *)
Theorem controllers_of_member rows eui :
  In eui (controllers_of rows)
  <-> exists row,
        In row rows
        /\ (2 <= length row)%nat
        /\ Py.strip (nth 1 row "") = "controller"
        /\ eui = Py.strip (nth 0 row "").
Proof.
  unfold controllers_of. rewrite controllers_fold. simpl.
  rewrite in_map_iff. split.
  - intros (row & <- & Hin). apply filter_In in Hin as [Hin Hc].
    unfold is_controller_row in Hc. apply andb_true_iff in Hc as [Hlen Hty].
    exists row. repeat split; auto.
    + by apply Nat.leb_le.
    + by apply String.eqb_eq.
  - intros (row & Hin & Hlen & Hty & ->). exists row. split; [reflexivity|].
    apply filter_In. split; [done|].
    unfold is_controller_row. apply andb_true_iff. split.
    + by apply Nat.leb_le.
    + by apply String.eqb_eq.
Qed.

(** ** Messages that are not forwarded *)

Section Ingestion.

Variable Enqueue_with_call : nat -> request -> Py.result string.
Variable as_completed : list Future -> list Future.

#[local] Abbreviation on_message := (on_message Enqueue_with_call as_completed).
#[local] Abbreviation process_status :=
  (process_status Enqueue_with_call as_completed).

(** X3: a message whose topic has fewer than six segments is answered
    by one [logger.error] call for the [IndexError] of [topic[5]]; its
    payload is not looked at and the debouncer is left alone. *)
Theorem short_topic_logged msg w :
  (length (Py.split "/" (topic msg)) <= 5)%nat ->
  on_message msg w
  = (set_log (log w ++ [MessageError Py.IndexError]) w, Py.Ok tt).
Proof.
  intros Hlen. unfold on_message, try_except, bind, lift, Py.index.
  by rewrite (lookup_ge_None_2 _ _ Hlen).
Qed.

(** X4: the payload is decoded before the event type is examined: a
    message of any event type (join, ack, up, ...) whose payload cannot
    be decoded is answered by one [logger.error] call. *)
Theorem undecodable_payload_logged msg w ev :
  Py.split "/" (topic msg) !! 5%nat = Some ev ->
  payload_json msg = None ->
  on_message msg w
  = (set_log (log w ++ [MessageError Py.ValueError]) w, Py.Ok tt).
Proof.
  intros Hev Hdoc. unfold on_message, try_except, bind, lift, Py.index, json_loads.
  by rewrite Hev, Hdoc.
Qed.

(** X5: an event that is not an uplink is dropped without a trace as
    soon as its payload decodes, whatever the document is (a dict or
    not, from the master or not). *)
Theorem other_event_ignored msg w ev data :
  Py.split "/" (topic msg) !! 5%nat = Some ev ->
  ev <> "up" ->
  payload_json msg = Some data ->
  on_message msg w = (w, Py.Ok tt).
Proof.
  intros Hev Hup Hdoc. unfold on_message, try_except, bind, lift, Py.index, json_loads.
  rewrite Hev, Hdoc. by destruct (String.eqb_spec ev "up").
Qed.

(** X6: an uplink whose [deviceInfo] is absent, or is a dict that does
    not name the master in [devEui], is dropped without a trace; its
    [object] is not examined (it may be missing or malformed). *)
Theorem foreign_uplink_ignored msg w data info :
  Py.split "/" (topic msg) !! 5%nat = Some "up" ->
  payload_json msg = Some (Py.JObj data) ->
  match Py.assoc "deviceInfo" data with
  | Some v => v
  | None => Py.JObj []
  end = Py.JObj info ->
  Py.assoc "devEui" info <> Some (Py.JStr MASTER_EUI) ->
  on_message msg w = (w, Py.Ok tt).
Proof.
  intros Hev Hdoc Hinfo Heui.
  unfold on_message, try_except, bind, lift, Py.index, json_loads, ret.
  rewrite Hev, Hdoc. simpl. rewrite Hinfo. simpl.
  destruct (Py.assoc "devEui" info) as [eui|]; [|reflexivity].
  destruct (Py.eq_str eui MASTER_EUI) eqn:Hm; [|reflexivity].
  destruct eui as [| | |e| |]; try discriminate.
  simpl in Hm. apply String.eqb_eq in Hm. congruence.
Qed.

(** X7: an uplink of the master whose [object] is missing (or is a
    number, a boolean or null) is not dropped silently: [len] raises
    [TypeError] and the handler makes one [logger.error] call; nothing
    is forwarded. *)
Theorem master_uplink_without_object msg w data info :
  Py.split "/" (topic msg) !! 5%nat = Some "up" ->
  payload_json msg = Some (Py.JObj data) ->
  Py.assoc "deviceInfo" data = Some (Py.JObj info) ->
  Py.assoc "devEui" info = Some (Py.JStr MASTER_EUI) ->
  Py.len (match Py.assoc "object" data with
          | Some v => v
          | None => Py.JNull
          end) = Py.Raise Py.TypeError ->
  on_message msg w
  = (set_log (log w ++ [MessageError Py.TypeError]) w, Py.Ok tt).
Proof.
  intros Hev Hdoc Hinfo Heui Hlen.
  unfold on_message, try_except, bind, lift, Py.index, json_loads, ret.
  rewrite Hev, Hdoc. simpl. rewrite Hinfo. simpl. rewrite Heui. simpl.
  rewrite Hlen. reflexivity.
Qed.



End Ingestion.

(** ** The debouncer between two events *)

Lemma cancelled_timer_dead tm : Interleaving.outstanding (Timer_cancel tm) = false.
Proof.
  unfold Timer_cancel, Interleaving.outstanding.
  destruct (phase tm) eqn:E; simpl; by rewrite ?E.
Qed.

Lemma armed_from_last w older last :
  timers w = older ++ [last] ->
  _di_timeout_timer w = Some (length older) ->
  Forall (fun tm => Interleaving.outstanding tm = false) older ->
  armed_world (armed w).
Proof.
  intros Ht Hh Hdead. exists (older ++ [Timer_cancel last]). simpl.
  rewrite Hh, Ht. unfold cancelled. rewrite alter_last.
  split; [reflexivity|]. split.
  - by rewrite !length_app.
  - apply Forall_app. split; [done|].
    constructor; [apply cancelled_timer_dead|constructor].
Qed.

Lemma armed_from_idle w : idle_world w -> armed_world (armed w).
Proof.
  intros [Ht Hh]. exists []. simpl. rewrite Ht, Hh. simpl. auto.
Qed.

Lemma armed_world_same w w' :
  timers w' = timers w ->
  _di_timeout_timer w' = _di_timeout_timer w ->
  (armed_world w -> armed_world w') /\ (idle_world w -> idle_world w').
Proof.
  intros Ht Hh. unfold armed_world, idle_world. rewrite Ht, Hh. auto.
Qed.

Lemma armed_world_waiting w t tm :
  armed_world w ->
  timers w !! t = Some tm ->
  is_waiting tm = true ->
  _di_timeout_timer w = Some t /\ tm = mkTimer TIMEOUT_SECONDS "H" true Waiting.
Proof.
  intros (older & Ht & Hh & Hdead) Hlook Hw. rewrite Ht in Hlook.
  apply lookup_snoc_Some in Hlook as [[Hlt Hlook]|[-> <-]].
  - eapply Forall_lookup_1 in Hdead; [|exact Hlook].
    unfold is_waiting in Hw. unfold Interleaving.outstanding in Hdead.
    by destruct (phase tm).
  - by rewrite Hh.
Qed.

Section Debouncer.

Variable Enqueue_with_call : nat -> request -> Py.result string.
Variable as_completed : list Future -> list Future.

#[local] Abbreviation run_event := (run_event Enqueue_with_call as_completed).
#[local] Abbreviation run := (run Enqueue_with_call as_completed).
#[local] Abbreviation timer_expire := (timer_expire Enqueue_with_call as_completed).

Lemma run_event_armed e w w' :
  run_event e w = Some w' ->
  (idle_world w \/ armed_world w) ->
  (idle_world w' \/ armed_world w')
  /\ (armed_world w -> armed_world w').
Proof.
  destruct e as [msg|t|files]; simpl.
  - intros [= <-] Hw.
    destruct (on_message_cases Enqueue_with_call as_completed msg w)
      as [(s & _ & ->)|(_ & [-> | [e ->]])].
    + destruct (try_process_status Enqueue_with_call as_completed s w)
        as [_ [l El]].
      simpl in El. rewrite El.
      assert (armed_world (armed w)) as Ha.
      { destruct Hw as [Hi|(older & Ht & Hh & Hdead)].
        - by apply armed_from_idle.
        - eapply armed_from_last; eauto. }
      destruct (armed_world_same (armed w)
                  (set_log (log w ++ l)
                     (set_submitted
                        (submitted w
                           ++ map (fun eui => _enqueue eui (payload_bytes s))
                                (fleet (fs w))) (armed w))))
        as [Hsame _]; [done..|].
      split; [right|]; auto.
    + simpl. tauto.
    + destruct (armed_world_same w (set_log (log w ++ [MessageError e]) w))
        as [Ha Hi]; [done..|].
      simpl. tauto.
  - unfold timer_expire.
    destruct (timers w !! t) as [tm|] eqn:Hlook; [|done].
    destruct (is_waiting tm) eqn:Hwt; [|done].
    intros [= <-] [[Ht _]|Ha]; [by rewrite Ht in Hlook|].
    destruct (armed_world_waiting w t tm Ha Hlook Hwt) as [Hh ->].
    destruct Ha as (older & Ht & Hh' & Hdead).
    assert (t = length older) as -> by congruence.
    match goal with
    | |- context [process_status _ _ ?s ?w0] =>
        destruct (process_status_world Enqueue_with_call as_completed s w0)
          as [l El];
        assert (armed_world (armed w0)) as Ha
    end.
    { eapply (armed_from_last _ older); simpl; eauto.
      rewrite Ht. apply alter_last. }
    rewrite El.
    match goal with
    | |- context [set_log ?a (set_submitted ?b ?w1)] =>
        destruct (armed_world_same w1 (set_log a (set_submitted b w1)))
          as [Hsame _]; [done..|]
    end.
    split; [right|]; auto.
  - intros [= <-] Hw.
    destruct (armed_world_same w (set_fs files w)) as [Ha Hi]; [done..|]. tauto.
Qed.

Lemma run_armed es w w' :
  run es w = Some w' ->
  (idle_world w \/ armed_world w) ->
  (idle_world w' \/ armed_world w')
  /\ (armed_world w -> armed_world w').
Proof.
  revert w. induction es as [|e es IH]; intros w; simpl.
  - intros [= <-]. tauto.
  - destruct (run_event e w) as [w1|] eqn:He; [|done].
    intros Hrun Hw. destruct (run_event_armed e w w1 He Hw) as [H1 H2].
    destruct (IH w1 Hrun H1) as [H3 H4]. split; auto.
Qed.

(** X9: between two events the debouncer is in one of two states.
    Before the first call of [process_status] no timer exists.  From
    then on it is armed for good: whatever messages, expiries and file
    changes follow, the timer created last is waiting with interval
    [TIMEOUT_SECONDS] and is the one held in [_di_timeout_timer], and
    every older timer is cancelled or fired. *)
Theorem armed_for_good files w0 es w es' w' :
  module_load files = Py.Ok w0 ->
  run es w0 = Some w ->
  run es' w = Some w' ->
  (idle_world w \/ armed_world w)
  /\ (armed_world w -> armed_world w').
Proof.
  intros Hload Hrun Hrun'.
  assert (idle_world w0) as H0.
  { apply module_load_ok in Hload as (c & ctrls & _ & ->). by split. }
  destruct (run_armed es w0 w Hrun (or_introl H0)) as [Hw _].
  split; [exact Hw|]. by destruct (run_armed es' w w' Hrun' Hw).
Qed.

(** X10: a superseded timer never fires: in every world reached from
    the loaded module, the expiry of a timer is possible exactly when
    that timer is the one held in [_di_timeout_timer]. *)
Theorem only_current_timer_expires files w0 es w t :
  module_load files = Py.Ok w0 ->
  run es w0 = Some w ->
  is_Some (timer_expire t w) <-> _di_timeout_timer w = Some t.
Proof.
  intros Hload Hrun.
  assert (idle_world w0) as H0.
  { apply module_load_ok in Hload as (c & ctrls & _ & ->). by split. }
  destruct (run_armed es w0 w Hrun (or_introl H0)) as [[[Ht Hh]|Ha] _].
  - unfold timer_expire. rewrite Ht, Hh. simpl. split.
    + by intros [? ?].
    + discriminate.
  - unfold timer_expire. split.
    + destruct (timers w !! t) as [tm|] eqn:Hlook; [|by intros [? ?]].
      destruct (is_waiting tm) eqn:Hwt; [|by intros [? ?]].
      intros _. by destruct (armed_world_waiting w t tm Ha Hlook Hwt).
    + intros Hh. destruct Ha as (older & Ht & Hh' & _).
      assert (t = length older) as -> by congruence.
      rewrite Ht, list_lookup_middle by done. simpl. eauto.
Qed.

End Debouncer.

(** ** The records of a cycle *)

Lemma filter_length_perm {A} (p : A -> bool) (l l' : list A) :
  Permutation l l' -> length (List.filter p l) = length (List.filter p l').
Proof.
  induction 1 as [|x l l' _ IH|x y l|l l' l'' _ IH1 _ IH2]; simpl.
  - reflexivity.
  - destruct (p x); simpl; congruence.
  - destruct (p x), (p y); reflexivity.
  - congruence.
Qed.

Lemma filter_length_map {A B} (p : B -> bool) (g : A -> B) (l : list A) :
  length (List.filter p (map g l)) = length (List.filter (fun x => p (g x)) l).
Proof.
  induction l as [|x l IH]; simpl; [reflexivity|].
  destruct (p (g x)); simpl; congruence.
Qed.

Section Records.

Variable Enqueue_with_call : nat -> request -> Py.result string.
Variable as_completed : list Future -> list Future.
Hypothesis as_completed_perm : forall l, Permutation (as_completed l) l.

Lemma record_level f :
  is_info (record_of Enqueue_with_call f) = acknowledged Enqueue_with_call f.
Proof.
  unfold is_info, record_of, acknowledged, outcome_record.
  destruct (Enqueue_with_call (task_id f) (task f)) as [id|e]; [reflexivity|].
  by destruct e.
Qed.

(** X11: the log of a cycle counts its outcomes: among the records
    written by [send_downlink_parallel], those at level INFO are as
    many as the calls that were acknowledged, those at level ERROR as
    many as the calls that raised, and together they are as many as the
    members, whatever the order of completion. *)
Theorem cycle_log_counts_outcomes dev_euis hex payload w :
  Py.fromhex hex = Some payload ->
  let futures := map fst (futures_from (length (submitted w)) dev_euis payload) in
  let w' := fst (send_downlink_parallel Enqueue_with_call as_completed
                   dev_euis hex w) in
  let written := drop (length (log w)) (log w') in
  length (List.filter is_info written)
  = length (List.filter (acknowledged Enqueue_with_call) futures)
  /\ length (List.filter (fun r => negb (is_info r)) written)
     = length (List.filter (fun f => negb (acknowledged Enqueue_with_call f)) futures)
  /\ length written = length dev_euis.
Proof.
  intros Hhex futures w' written. subst w' written.
  rewrite (send_downlink_parallel_spec Enqueue_with_call as_completed
             as_completed_perm _ _ _ _ Hhex).
  simpl. fold futures. rewrite drop_app_length.
  rewrite !filter_length_map.
  rewrite !(filter_length_perm _ _ _ (as_completed_perm futures)).
  split; [|split].
  - f_equal. apply List.filter_ext. intros f. apply record_level.
  - f_equal. apply List.filter_ext. intros f. by rewrite record_level.
  - rewrite length_map, (Permutation_length (as_completed_perm futures)).
    subst futures. by rewrite length_map, futures_from_length.
Qed.

End Records.

(** ** The lock *)

Lemma all_done_or_not (ths : list Interleaving.Thread) :
  (forall i th, ths !! i = Some th -> Interleaving.at_pc th = Interleaving.Done)
  \/ exists i th, ths !! i = Some th /\ Interleaving.at_pc th <> Interleaving.Done.
Proof.
  induction ths as [|th ths [IH|(i & th' & Hi & Hpc)]].
  - left. intros i th H. discriminate.
  - destruct (Interleaving.at_pc th) eqn:Hpc;
      try (right; exists 0%nat, th; split; [reflexivity|congruence]).
    left. intros [|i] th' H; simpl in H; [congruence|eauto].
  - right. exists (S i), th'. auto.
Qed.

Section Lock.

Import Interleaving.

Variable Enqueue_with_call : nat -> request -> Py.result string.
Variable as_completed : list Future -> list Future.

#[local] Abbreviation thread_step := (thread_step Enqueue_with_call as_completed).
#[local] Abbreviation sys_step := (sys_step Enqueue_with_call as_completed).
#[local] Abbreviation sys_run := (sys_run Enqueue_with_call as_completed).

Lemma holder_after_update i th pc' lock' w' s :
  holder_inside s ->
  threads s !! i = Some th ->
  (forall j, lock' = Some j ->
             (j = i /\ in_critical_section pc' = true)
             \/ (j <> i /\ _lock s = Some j)) ->
  holder_inside (mkSystem w' lock' (<[i := mkThread (status_arg th) pc']> (threads s))).
Proof.
  intros Hh Hth Hl j Hj. simpl in *.
  assert (i < length (threads s))%nat by (eapply lookup_lt_Some; eauto).
  destruct (Hl j Hj) as [[-> Hc]|[Hne Hold]].
  - eexists. rewrite list_lookup_insert_eq by done. split; [reflexivity|done].
  - destruct (Hh j Hold) as (thj & Hthj & Hc). exists thj.
    by rewrite list_lookup_insert_ne.
Qed.

Lemma thread_step_holder i s s' :
  holder_inside s -> thread_step i s = Some s' -> holder_inside s'.
Proof.
  intros Hh. unfold thread_step.
  destruct (threads s !! i) as [th|] eqn:Hth; [|done].
  assert (forall j, _lock s = Some j -> in_critical_section (at_pc th) = false ->
                    j <> i) as Hother.
  { intros j Hj Hnc ->. destruct (Hh i Hj) as (th' & Hth' & Hc). congruence. }
  assert (forall next m,
             in_critical_section next = true ->
             holder_inside (locked_stmt i th m next s)) as Hlocked.
  { intros next m Hnext. unfold locked_stmt.
    destruct (m (world s)) as [w' [[]|e]].
    - apply holder_after_update; auto. intros j Hj.
      destruct (decide (j = i)) as [->|Hne]; auto.
    - apply holder_after_update; auto; intros j Hj; discriminate. }
  destruct (at_pc th) eqn:Hpc.
  - destruct (_lock s) eqn:Hlock; [done|]. intros [= <-].
    apply holder_after_update; auto. intros j [= <-]. by left.
  - intros [= <-]. by apply Hlocked.
  - intros [= <-]. by apply Hlocked.
  - intros [= <-]. by apply Hlocked.
  - intros [= <-]. by apply Hlocked.
  - intros [= <-]. apply holder_after_update; auto; intros j Hj; discriminate.
  - intros [= <-]. apply holder_after_update; [done|done|]. intros j Hj.
    right. split; [|done]. by apply Hother.
  - done.
Qed.

Lemma sys_step_holder l s s' :
  holder_inside s -> sys_step l s = Some s' -> holder_inside s'.
Proof.
  intros Hh. destruct l as [status|t|i|files]; simpl.
  - intros [= <-] j Hj. simpl in *. destruct (Hh j Hj) as (th & Hth & Hc).
    exists th. split; [|done]. rewrite lookup_app_l; [done|].
    eapply lookup_lt_Some; eauto.
  - destruct (timers (world s) !! t) as [tm|]; [|done].
    destruct (is_waiting tm); [|done].
    intros [= <-] j Hj. simpl in *. destruct (Hh j Hj) as (th & Hth & Hc).
    exists th. split; [|done]. rewrite lookup_app_l; [done|].
    eapply lookup_lt_Some; eauto.
  - by apply thread_step_holder.
  - intros [= <-] j Hj. simpl in *. eauto.
Qed.

Lemma sys_run_holder ls s s' :
  holder_inside s -> sys_run ls s = Some s' -> holder_inside s'.
Proof.
  revert s. induction ls as [|l ls IH]; intros s Hh; simpl.
  - by intros [= <-].
  - destruct (sys_step l s) as [s1|] eqn:Hstep; [|done].
    apply IH. eapply sys_step_holder; eauto.
Qed.

(** X12: the lock is held only across the cancel-and-rearm statements:
    in every interleaving the thread that holds [_lock] is at one of
    the five statements of the [with] block.  It is never held by a
    call that is reading the file, submitting or collecting (the
    dispatch), nor by a call that has returned or raised, nor by a
    call still waiting for it. *)
Theorem lock_only_inside_with_block w0 ls s i :
  sys_run ls (boot w0) = Some s ->
  _lock s = Some i ->
  exists th,
    threads s !! i = Some th
    /\ in_critical_section (at_pc th) = true
    /\ at_pc th <> AtDispatch /\ at_pc th <> Done /\ at_pc th <> AtLock.
Proof.
  intros Hrun Hlock.
  assert (holder_inside s) as Hh.
  { eapply sys_run_holder; [|exact Hrun]. intros j Hj. discriminate. }
  destruct (Hh i Hlock) as (th & Hth & Hc). exists th.
  split; [done|]. split; [done|].
  destruct (at_pc th); try discriminate; repeat split; discriminate.
Qed.

(** X13: no deadlock: in every interleaving, unless every call has
    finished, some call can execute its next statement.  When the lock
    is held its holder can, and when it is free every unfinished call
    can. *)
Theorem no_deadlock files w0 ls s :
  module_load files = Py.Ok w0 ->
  sys_run ls (boot w0) = Some s ->
  (forall i th, threads s !! i = Some th -> at_pc th = Done)
  \/ exists i s', thread_step i s = Some s'.
Proof.
  intros Hload Hrun.
  assert (holder_inside s) as Hh.
  { eapply sys_run_holder; [|exact Hrun]. intros j Hj. discriminate. }
  assert (sys_inv s) as (_ & Hmx & _).
  { eapply sys_run_inv; [|exact Hrun]. eapply boot_inv; eauto. }
  destruct (_lock s) as [j|] eqn:Hlock.
  - right. destruct (Hh j Hlock) as (th & Hth & Hc). exists j.
    unfold thread_step. rewrite Hth.
    destruct (at_pc th); try discriminate; eauto.
  - destruct (all_done_or_not (threads s)) as [Hdone|(i & th & Hth & Hpc)];
      [by left|right].
    exists i. unfold thread_step. rewrite Hth.
    destruct (at_pc th) eqn:E; try (by eauto); try done;
      try (by (assert (_lock s = Some i) by (apply (Hmx i th Hth); by rewrite E);
               congruence)).
    rewrite Hlock. eauto.
Qed.

Lemma sys_run_app l1 l2 s :
  sys_run (l1 ++ l2) s
  = match sys_run l1 s with
    | Some s1 => sys_run l2 s1
    | None => None
    end.
Proof.
  revert s. induction l1 as [|l l1 IH]; intros s; simpl; [reflexivity|].
  by destruct (sys_step l s).
Qed.

(** A call that finds the lock free and is not interrupted goes
    through the [with] block in six steps and leaves the world armed. *)
Lemma critical_section_run i th s :
  threads s !! i = Some th ->
  at_pc th = AtLock ->
  _lock s = None ->
  sys_run [Step i; Step i; Step i; Step i; Step i; Step i] s
  = Some (mkSystem (armed (world s)) None
            (<[i := mkThread (status_arg th) AtDispatch]> (threads s))).
Proof.
  intros Hth Hpc Hlock.
  assert (i < length (threads s))%nat as Hi by (eapply lookup_lt_Some; eauto).
  destruct s as [w lk ths]. simpl in *. subst lk.
  unfold thread_step at 1. simpl. rewrite Hth, Hpc.
  unfold thread_step at 1. simpl.
  rewrite list_lookup_insert_eq by done. simpl.
  unfold locked_stmt at 1. simpl.
  assert (cancel_old w
          = (set_timers (cancelled (_di_timeout_timer w) (timers w)) w, Py.Ok tt))
    as ->.
  { unfold cancel_old, bind, gets, on_timer, modify, ret, cancelled.
    destruct (_di_timeout_timer w); [done|]. by destruct w. }
  unfold thread_step at 1. simpl.
  rewrite list_lookup_insert_eq by (by rewrite length_insert). simpl.
  unfold thread_step at 1. simpl.
  rewrite list_lookup_insert_eq by (by rewrite !length_insert). simpl.
  unfold locked_stmt at 1. simpl.
  rewrite alter_last. simpl.
  unfold thread_step at 1. simpl.
  rewrite list_lookup_insert_eq by (by rewrite !length_insert). simpl.
  unfold locked_stmt at 1. simpl.
  rewrite alter_last. simpl.
  unfold thread_step at 1. simpl.
  rewrite list_lookup_insert_eq by (by rewrite !length_insert). simpl.
  rewrite !list_insert_insert_eq.
  assert (length (cancelled (_di_timeout_timer w) (timers w)) = length (timers w))
    as ->; [|reflexivity].
  unfold cancelled. destruct (_di_timeout_timer w); [apply length_alter|done].
Qed.

(** X14: dispatch cycles are not serialised: whenever the lock is
    free, two calls of [process_status] with any two statuses can both
    pass the [with] block before either of them starts its dispatch, so
    that two cycles, possibly with different payloads, are in flight at
    the same time; the second call has cancelled the timer of the
    first. *)
Theorem dispatch_cycles_overlap s a b :
  _lock s = None ->
  let n := length (threads s) in
  exists ls s',
    sys_run ls s = Some s'
    /\ threads s' !! n = Some (mkThread a AtDispatch)
    /\ threads s' !! S n = Some (mkThread b AtDispatch)
    /\ _lock s' = None
    /\ world s' = armed (armed (world s)).
Proof.
  intros Hlock n.
  exists ([Call a; Call b]
            ++ [Step n; Step n; Step n; Step n; Step n; Step n]
            ++ [Step (S n); Step (S n); Step (S n); Step (S n); Step (S n);
                Step (S n)]).
  eexists. rewrite sys_run_app. cbn [sys_run sys_step].
  rewrite sys_run_app.
  rewrite (critical_section_run n (mkThread a AtLock)); cbn [world _lock threads];
    [|rewrite lookup_app_l by (rewrite length_app; simpl; lia);
      by apply list_lookup_middle|done|done].
  rewrite (critical_section_run (S n) (mkThread b AtLock));
    cbn [world _lock threads status_arg]; [| |done|done].
  - split; [reflexivity|]. cbn [world _lock threads].
    assert (length ((threads s ++ [mkThread a AtLock]) ++ [mkThread b AtLock])
            = S (S n)) as Hlen by (rewrite !length_app; simpl; lia).
    split.
    + rewrite list_lookup_insert_ne by lia.
      apply list_lookup_insert_eq. lia.
    + split; [|done]. apply list_lookup_insert_eq.
      rewrite length_insert. lia.
  - rewrite list_lookup_insert_ne by lia.
    replace (S n) with (length (threads s ++ [mkThread a AtLock]))
      by (rewrite length_app; simpl; lia).
    by apply list_lookup_middle.
Qed.

End Lock.

(** ** The sequential sender *)

Section Sequential.

Variable Enqueue : nat -> request -> Py.result string.

Lemma send_downlink_loop_rpc payload dev_euis :
  forall st,
    (forall i eui, dev_euis !! i = Some eui ->
                   rpc_outcome Enqueue (length (called st) + i)
                     (mkRequest eui FPORT CONFIRMED payload)) ->
    exists recs,
      send_downlink_loop Enqueue payload dev_euis st
      = (mkDirect
           (called st
              ++ map (fun eui => mkRequest eui FPORT CONFIRMED payload) dev_euis)
           (records st ++ recs),
         Py.Ok tt)
      /\ length recs = length dev_euis.
Proof.
  induction dev_euis as [|eui rest IH]; intros st Hrpc; simpl.
  - exists []. rewrite !app_nil_r. by destruct st.
  - pose proof (Hrpc 0%nat eui eq_refl) as H0. unfold rpc_outcome in H0.
    rewrite Nat.add_0_r in H0.
    assert (forall r,
               exists recs,
                 send_downlink_loop Enqueue payload rest
                   (mkDirect
                      (called st ++ [mkRequest eui FPORT CONFIRMED payload])
                      (records st ++ [r]))
                 = (mkDirect
                      (called st
                         ++ mkRequest eui FPORT CONFIRMED payload
                         :: map (fun eui => mkRequest eui FPORT CONFIRMED payload) rest)
                      (records st ++ recs), Py.Ok tt)
                 /\ length recs = S (length rest)) as Hnext.
    { intros r.
      destruct (IH (mkDirect
                      (called st ++ [mkRequest eui FPORT CONFIRMED payload])
                      (records st ++ [r]))) as (recs & -> & Hlen).
      - intros i e Hi. simpl. rewrite length_app. simpl.
        replace (length (called st) + 1 + i)%nat
          with (length (called st) + S i)%nat by lia.
        by apply Hrpc.
      - exists (r :: recs). simpl. rewrite <- !app_assoc. simpl.
        split; [reflexivity|]. by rewrite Hlen. }
    destruct (Enqueue (length (called st)) (mkRequest eui FPORT CONFIRMED payload))
      as [id|e]; [apply Hnext|].
    destruct e; first [done | apply Hnext].
Qed.

(** X15: when every failure of the channel is a [grpc.RpcError],
    [send_downlink] returns normally after one call per list entry, in
    the order of the list, each with port [FPORT], unconfirmed and
    carrying the decoded payload, and after one log record per entry. *)
Theorem send_downlink_calls_everyone dev_euis hex payload st :
  Py.fromhex hex = Some payload ->
  (forall i eui, dev_euis !! i = Some eui ->
                 rpc_outcome Enqueue (length (called st) + i)
                   (mkRequest eui FPORT CONFIRMED payload)) ->
  let r := send_downlink Enqueue dev_euis hex st in
  snd r = Py.Ok tt
  /\ called (fst r)
     = called st ++ map (fun eui => mkRequest eui FPORT CONFIRMED payload) dev_euis
  /\ length (records (fst r)) = length (records st) + length dev_euis.
Proof.
  intros Hhex Hrpc r. subst r. unfold send_downlink. rewrite Hhex.
  destruct (send_downlink_loop_rpc payload dev_euis st Hrpc) as (recs & -> & Hlen).
  simpl. rewrite length_app. auto.
Qed.

(** X16: an exception of the channel that is no [grpc.RpcError] is
    not caught by [send_downlink]: it leaves the function at the entry
    whose call raised it, without a log record for that entry, and the
    entries after it are never called. *)
Theorem send_downlink_stops_at_unexpected before eui after hex payload st e :
  Py.fromhex hex = Some payload ->
  (forall i x, before !! i = Some x ->
               rpc_outcome Enqueue (length (called st) + i)
                 (mkRequest x FPORT CONFIRMED payload)) ->
  Enqueue (length (called st) + length before)
    (mkRequest eui FPORT CONFIRMED payload) = Py.Raise e ->
  (forall detail, e <> Py.RpcError detail) ->
  let r := send_downlink Enqueue (before ++ eui :: after) hex st in
  snd r = Py.Raise e
  /\ called (fst r)
     = called st
         ++ map (fun x => mkRequest x FPORT CONFIRMED payload) (before ++ [eui])
  /\ length (records (fst r)) = length (records st) + length before.
Proof.
  intros Hhex Hrpc Hfail Hkind r. subst r. unfold send_downlink. rewrite Hhex.
  clear Hhex. revert st Hrpc Hfail.
  induction before as [|x before IH]; intros st Hrpc Hfail; simpl.
  - simpl in Hfail. rewrite Nat.add_0_r in Hfail. rewrite Hfail.
    destruct e; simpl; try (rewrite Nat.add_0_r; auto).
    by destruct (Hkind detail).
  - pose proof (Hrpc 0%nat x eq_refl) as H0. unfold rpc_outcome in H0.
    rewrite Nat.add_0_r in H0.
    assert (forall rec,
               let st1 := mkDirect
                            (called st ++ [mkRequest x FPORT CONFIRMED payload])
                            (records st ++ [rec]) in
               let r := send_downlink_loop Enqueue payload
                          (before ++ eui :: after) st1 in
               snd r = Py.Raise e
               /\ called (fst r)
                  = called st
                      ++ mkRequest x FPORT CONFIRMED payload
                      :: map (fun x => mkRequest x FPORT CONFIRMED payload)
                           (before ++ [eui])
               /\ length (records (fst r)) = length (records st) + S (length before))
      as Hnext.
    { intros rec st1 r. subst r.
      destruct (IH st1) as (H1 & H2 & H3).
      - intros i y Hi. subst st1. simpl. rewrite length_app. simpl.
        replace (length (called st) + 1 + i)%nat
          with (length (called st) + S i)%nat by lia.
        by apply Hrpc.
      - subst st1. simpl. rewrite length_app. simpl.
        replace (length (called st) + 1 + length before)%nat
          with (length (called st) + length (x :: before))%nat by (simpl; lia).
        exact Hfail.
      - split; [exact H1|]. rewrite H2, H3. subst st1. simpl.
        rewrite <- app_assoc, length_app. simpl. split; [reflexivity|lia]. }
    destruct (Enqueue (length (called st)) (mkRequest x FPORT CONFIRMED payload))
      as [id|e0]; [apply Hnext|].
    destruct e0; first [done | apply Hnext].
Qed.

End Sequential.

(** X17: the two senders agree on what is sent: for a payload that
    decodes, the requests [send_downlink] sends over a channel whose
    only failures are [grpc.RpcError] are, in the same order, the
    requests [send_downlink_parallel] hands to the executor; for a
    payload that does not decode, both raise [ValueError] before
    sending or submitting anything. *)
Theorem senders_agree Enqueue Enqueue_with_call as_completed dev_euis hex w :
  (forall n req, rpc_outcome Enqueue n req) ->
  let direct := send_downlink Enqueue dev_euis hex (mkDirect [] []) in
  let pooled := send_downlink_parallel Enqueue_with_call as_completed
                  dev_euis hex w in
  match Py.fromhex hex with
  | Some payload =>
      called (fst direct) = drop (length (submitted w)) (submitted (fst pooled))
      /\ called (fst direct) = map (fun eui => _enqueue eui payload) dev_euis
  | None =>
      direct = (mkDirect [] [], Py.Raise Py.ValueError)
      /\ pooled = (w, Py.Raise Py.ValueError)
  end.
Proof.
  intros Hrpc direct pooled. subst direct pooled.
  destruct (Py.fromhex hex) as [payload|] eqn:Hhex.
  - destruct (send_downlink_parallel_world Enqueue_with_call as_completed
                dev_euis hex payload w Hhex) as [l El].
    rewrite El. simpl. rewrite drop_app_length.
    unfold send_downlink. rewrite Hhex.
    destruct (send_downlink_loop_rpc Enqueue payload dev_euis (mkDirect [] []))
      as (recs & -> & _); [intros; apply Hrpc|].
    simpl. auto.
  - unfold send_downlink, send_downlink_parallel, bind, lift.
    by rewrite Hhex.
Qed.

(** ** Consecutive cycles *)


(** * The further properties on sample inputs *)

Lemma short_topic_logged_witness :
  on_message healthy_channel in_submission_order (mkMessage "a/b" None) loaded
  = (set_log [MessageError Py.IndexError] loaded, Py.Ok tt).
Proof.
  apply (short_topic_logged healthy_channel in_submission_order
           (mkMessage "a/b" None) loaded).
  vm_compute. lia.
Defined.

Lemma undecodable_payload_logged_witness :
  on_message healthy_channel in_submission_order
    (mkMessage "application/1/device/a84041679d5cfcf2/event/ack" None) loaded
  = (set_log [MessageError Py.ValueError] loaded, Py.Ok tt).
Proof.
  apply (undecodable_payload_logged healthy_channel in_submission_order
           (mkMessage "application/1/device/a84041679d5cfcf2/event/ack" None)
           loaded "ack"); vm_compute; reflexivity.
Defined.

Lemma other_event_ignored_witness :
  on_message healthy_channel in_submission_order join_event loaded
  = (loaded, Py.Ok tt).
Proof.
  apply (other_event_ignored healthy_channel in_submission_order
           join_event loaded "join" Py.JNull);
    [vm_compute; reflexivity|discriminate|vm_compute; reflexivity].
Defined.

Lemma foreign_uplink_ignored_witness :
  on_message healthy_channel in_submission_order foreign_uplink loaded
  = (loaded, Py.Ok tt).
Proof.
  apply (foreign_uplink_ignored healthy_channel in_submission_order
           foreign_uplink loaded
           [("deviceInfo", Py.JObj [("devEui", Py.JStr "0000000000000001")])]
           [("devEui", Py.JStr "0000000000000001")]);
    [vm_compute; reflexivity|vm_compute; reflexivity|vm_compute; reflexivity|].
  vm_compute. discriminate.
Defined.

Lemma master_uplink_without_object_witness :
  on_message healthy_channel in_submission_order bare_master_uplink loaded
  = (set_log [MessageError Py.TypeError] loaded, Py.Ok tt).
Proof.
  apply (master_uplink_without_object healthy_channel in_submission_order
           bare_master_uplink loaded
           [("deviceInfo", Py.JObj [("devEui", Py.JStr MASTER_EUI)])]
           [("devEui", Py.JStr MASTER_EUI)]); vm_compute; reflexivity.
Defined.



Lemma armed_for_good_witness :
  run healthy_channel in_submission_order
    [Message (master_uplink (full_object "L"))] loaded = Some armed_once
  /\ run healthy_channel in_submission_order
       [Expiry 0%nat; FileChanged missing_file; Expiry 1%nat] armed_once
     = Some after_history
  /\ (idle_world armed_once \/ armed_world armed_once).
Proof.
  assert (module_load two_controllers = Py.Ok loaded) as Hload
    by (vm_compute; reflexivity).
  assert (run healthy_channel in_submission_order
            [Message (master_uplink (full_object "L"))] loaded = Some armed_once)
    as Hrun by (vm_compute; reflexivity).
  assert (run healthy_channel in_submission_order
            [Expiry 0%nat; FileChanged missing_file; Expiry 1%nat] armed_once
          = Some after_history) as Hrun' by (vm_compute; reflexivity).
  split; [exact Hrun|]. split; [exact Hrun'|].
  exact (proj1 (armed_for_good healthy_channel in_submission_order
                  two_controllers loaded _ armed_once _ after_history
                  Hload Hrun Hrun')).
Defined.

Lemma only_current_timer_expires_witness :
  run healthy_channel in_submission_order sample_history loaded = Some after_history
  /\ (is_Some (timer_expire healthy_channel in_submission_order 2%nat after_history)
      <-> _di_timeout_timer after_history = Some 2%nat).
Proof.
  assert (module_load two_controllers = Py.Ok loaded) as Hload
    by (vm_compute; reflexivity).
  assert (run healthy_channel in_submission_order sample_history loaded
          = Some after_history) as Hrun by (vm_compute; reflexivity).
  split; [exact Hrun|].
  exact (only_current_timer_expires healthy_channel in_submission_order
           two_controllers loaded sample_history after_history 2%nat Hload Hrun).
Defined.

Lemma cycle_log_counts_outcomes_witness :
  Py.fromhex PAYLOAD_HIGH_HEX = Some [x03; x00; x00]
  /\ length (drop (length (log loaded))
               (log (fst (send_downlink_parallel faulty_channel (@rev Future)
                            ["d1"; "d2"; "d3"] PAYLOAD_HIGH_HEX loaded)))) = 3%nat.
Proof.
  assert (Py.fromhex PAYLOAD_HIGH_HEX = Some [x03; x00; x00]) as Hhex
    by (vm_compute; reflexivity).
  split; [exact Hhex|].
  exact (proj2 (proj2 (cycle_log_counts_outcomes faulty_channel (@rev Future)
                         (fun l => Permutation_sym (Permutation_rev l))
                         ["d1"; "d2"; "d3"] PAYLOAD_HIGH_HEX [x03; x00; x00]
                         loaded Hhex))).
Defined.

Lemma lock_only_inside_with_block_witness :
  Interleaving.sys_run healthy_channel in_submission_order racing_calls
    (Interleaving.boot loaded) = Some after_race
  /\ Interleaving._lock after_race = Some 1%nat
  /\ exists th,
      Interleaving.threads after_race !! 1%nat = Some th
      /\ Interleaving.in_critical_section (Interleaving.at_pc th) = true
      /\ Interleaving.at_pc th <> Interleaving.AtDispatch
      /\ Interleaving.at_pc th <> Interleaving.Done
      /\ Interleaving.at_pc th <> Interleaving.AtLock.
Proof.
  assert (Interleaving.sys_run healthy_channel in_submission_order racing_calls
            (Interleaving.boot loaded) = Some after_race) as Hrun
    by (vm_compute; reflexivity).
  assert (Interleaving._lock after_race = Some 1%nat) as Hlock
    by (vm_compute; reflexivity).
  split; [exact Hrun|]. split; [exact Hlock|].
  exact (lock_only_inside_with_block healthy_channel in_submission_order
           loaded racing_calls after_race 1%nat Hrun Hlock).
Defined.

Lemma no_deadlock_witness :
  module_load two_controllers = Py.Ok loaded
  /\ ((forall i th,
          Interleaving.threads after_race !! i = Some th ->
          Interleaving.at_pc th = Interleaving.Done)
      \/ exists i s',
          Interleaving.thread_step healthy_channel in_submission_order i after_race
          = Some s').
Proof.
  assert (module_load two_controllers = Py.Ok loaded) as Hload
    by (vm_compute; reflexivity).
  assert (Interleaving.sys_run healthy_channel in_submission_order racing_calls
            (Interleaving.boot loaded) = Some after_race) as Hrun
    by (vm_compute; reflexivity).
  split; [exact Hload|].
  exact (no_deadlock healthy_channel in_submission_order two_controllers loaded
           racing_calls after_race Hload Hrun).
Defined.

Lemma dispatch_cycles_overlap_witness :
  exists ls s',
    Interleaving.sys_run healthy_channel in_submission_order ls
      (Interleaving.boot loaded) = Some s'
    /\ Interleaving.threads s' !! 0%nat
       = Some (Interleaving.mkThread "H" Interleaving.AtDispatch)
    /\ Interleaving.threads s' !! 1%nat
       = Some (Interleaving.mkThread "L" Interleaving.AtDispatch)
    /\ Interleaving._lock s' = None
    /\ Interleaving.world s' = armed (armed loaded).
Proof.
  exact (dispatch_cycles_overlap healthy_channel in_submission_order
           (Interleaving.boot loaded) "H" "L" eq_refl).
Defined.

Lemma send_downlink_calls_everyone_witness :
  called (fst (send_downlink flaky_channel ["d1"; "d2"; "d3"] PAYLOAD_LOW_HEX
                 (mkDirect [] [])))
  = map (fun eui => mkRequest eui FPORT CONFIRMED [x05; x00; x11; xea; x60])
      ["d1"; "d2"; "d3"].
Proof.
  refine (proj1 (proj2 (send_downlink_calls_everyone flaky_channel
                          ["d1"; "d2"; "d3"] PAYLOAD_LOW_HEX
                          [x05; x00; x11; xea; x60] (mkDirect [] []) _ _))).
  - vm_compute; reflexivity.
  - intros i eui _. unfold rpc_outcome, flaky_channel.
    by destruct (_ =? 1)%nat.
Defined.

Lemma send_downlink_stops_at_unexpected_witness :
  called (fst (send_downlink broken_channel (["d1"] ++ "d2" :: ["d3"])
                 PAYLOAD_LOW_HEX (mkDirect [] [])))
  = map (fun eui => mkRequest eui FPORT CONFIRMED [x05; x00; x11; xea; x60])
      (["d1"] ++ ["d2"]).
Proof.
  refine (proj1 (proj2 (send_downlink_stops_at_unexpected broken_channel
                          ["d1"] "d2" ["d3"] PAYLOAD_LOW_HEX
                          [x05; x00; x11; xea; x60] (mkDirect [] [])
                          (Py.OtherError "ValueError") _ _ _ _))).
  - vm_compute; reflexivity.
  - intros [|i] x Hx; [|destruct i; discriminate].
    vm_compute. exact I.
  - vm_compute; reflexivity.
  - intros detail. discriminate.
Defined.

Lemma senders_agree_witness :
  called (fst (send_downlink flaky_channel ["d1"; "d2"] PAYLOAD_HIGH_HEX
                 (mkDirect [] [])))
  = drop (length (submitted loaded))
      (submitted (fst (send_downlink_parallel faulty_channel in_submission_order
                         ["d1"; "d2"] PAYLOAD_HIGH_HEX loaded))).
Proof.
  refine (proj1 (senders_agree flaky_channel faulty_channel in_submission_order
                   ["d1"; "d2"] PAYLOAD_HIGH_HEX loaded _)).
  intros n req. unfold rpc_outcome, flaky_channel. by destruct (_ =? 1)%nat.
Defined.
